(** * EEL-nergy: the sampling-and-control loop of [eel2.py]

    A shallow embedding of the temperature monitor: the threshold controller
    ([notify_nodemcu]), the gathering window ([gather_data]), the forecaster
    ([predict_temperature]), the scheduler ([data_collection_cycle]), the
    status query ([get_data]) and the retention sweep ([cleanup_files]).

    Conventions.
    - Python floats are rationals ([Q]): every finite float is a rational and
      the comparisons of the program are exact on them.  NaN and the
      infinities are not represented.
    - [time.time()] is a rational number of seconds.  [time.sleep d] advances
      the clock by exactly [d]; the sensor and the serial link advance it by
      the latency carried by the event they deliver.
    - The sensor and the serial link are streams of events fixed in advance
      (what each successive access will deliver); the program reads them
      through a cursor.
    - A Python exception that the program catches is a value of the
      primitive that raised it ([None], [false]); the [try] blocks of the
      source are the [match]es on these values.
    - The appends to the data file (lines 111-117 and 150-156) stand outside
      every [try]: an [OSError] there would leave [gather_data] and end the
      scheduler thread.  The model takes these appends to succeed; what is
      stated of a window, a cycle or a run is stated of one in which they
      did. *)

From Stdlib Require Import QArith Qminmax Qround Lqa Lia List String Ascii Bool NArith ZArith.
From stdpp Require Import gmap strings list fin_maps.

Local Open Scope Q_scope.

(** ** The environment *)

(** Milliseconds of latency, as seconds. *)
Definition ms (n : N) : Q := Z.of_N n # 1000.

(** One access to [sensor.pixels]: the 2-D grid, or an exception. *)
Inductive sensor_event :=
| Pixels (took : N) (grid : list (list Q))
| SensorError (took : N).

(** One command exchange on the serial link [ser]: [ser.write] raises, or it
    succeeds and [ser.readline().decode('utf-8')] raises, or it yields the
    decoded line (the empty string on a read timeout). *)
Inductive link_event :=
| WriteError (took : N)
| ReadError (took : N)
| Line (took : N) (text : string).

Inductive command := THRESHOLD_EXCEEDED | RESET_DEVICE.

(** ** Records written by the program *)

(** An entry of [cycle_data]. *)
Record cycle_record := mkRecord {
  rec_cycle : nat;
  rec_avg_temp : Q;
  rec_predicted_temp : Q
}.

(** A row of [temperature_data.csv]; the two-decimal formatting of the
    numbers is not modelled. *)
Record csv_row := mkRow {
  row_timestamp : Q;
  row_cycle : nat;
  row_average : Q;
  row_predicted : option Q;
  row_breach : option bool
}.

Inductive log_level := INFO | WARNING | ERROR.

Inductive log_message :=
| MsgSent (c : command)
| MsgResponse (text : string)
| MsgLinkFailure
| MsgGatherStart (cycle : nat)
| MsgExceeded (temp : Q)
| MsgGatherFailure
| MsgPredictFailure
| MsgPredicted (temp : Q) (cycle : nat)
| MsgPredictedExceeds (temp : Q)
| MsgDeleted (file : string)
| MsgDeleteFailure (file : string).

(** ** Program state: environment, module globals, effects *)

Record state := mkState {
  clock : Q;
  pixels_feed : nat -> sensor_event;
  pixels_read : nat;
  serial_feed : nat -> link_event;
  serial_used : nat;
  sensor_data : list Q;
  cycle_data : list cycle_record;
  cycle_count : nat;
  device_active : bool;
  serial_out : list command;
  csv_file : list csv_row;
  log : list (log_level * log_message);
  slept : list Q
}.

Definition TEMP_THRESHOLD : Q := 35.

(** The module as loaded: lines 44-49 of the source. *)
Definition boot (t0 : Q) (px : nat -> sensor_event) (lk : nat -> link_event) : state :=
  {| clock := t0; pixels_feed := px; pixels_read := 0%nat;
     serial_feed := lk; serial_used := 0%nat;
     sensor_data := []; cycle_data := []; cycle_count := 0%nat;
     device_active := false;
     serial_out := []; csv_file := []; log := []; slept := [] |}.

(** ** The monad: state passing; [None] is a loop that ran out of fuel *)

Definition M (A : Type) : Type := state -> option (A * state).

Definition ret {A} (a : A) : M A := fun s => Some (a, s).

Definition bind {A B} (m : M A) (f : A -> M B) : M B :=
  fun s => match m s with
           | Some (a, s') => f a s'
           | None => None
           end.

Notation "x <- m ;; k" := (bind m (fun x => k))
  (at level 100, m at next level, right associativity).
Notation "m ;;; k" := (bind m (fun _ => k))
  (at level 100, right associativity).

Definition gets {A} (f : state -> A) : M A := fun s => Some (f s, s).
Definition modify (f : state -> state) : M unit := fun s => Some (tt, f s).

(** ** State updates *)

Definition advance (d : Q) (s : state) : state :=
  {| clock := clock s + d; pixels_feed := pixels_feed s; pixels_read := pixels_read s;
     serial_feed := serial_feed s; serial_used := serial_used s;
     sensor_data := sensor_data s; cycle_data := cycle_data s;
     cycle_count := cycle_count s; device_active := device_active s;
     serial_out := serial_out s; csv_file := csv_file s; log := log s;
     slept := slept s |}.

Definition note_sleep (d : Q) (s : state) : state :=
  {| clock := clock s; pixels_feed := pixels_feed s; pixels_read := pixels_read s;
     serial_feed := serial_feed s; serial_used := serial_used s;
     sensor_data := sensor_data s; cycle_data := cycle_data s;
     cycle_count := cycle_count s; device_active := device_active s;
     serial_out := serial_out s; csv_file := csv_file s; log := log s;
     slept := d :: slept s |}.

Definition next_pixels (s : state) : state :=
  {| clock := clock s; pixels_feed := pixels_feed s; pixels_read := S (pixels_read s);
     serial_feed := serial_feed s; serial_used := serial_used s;
     sensor_data := sensor_data s; cycle_data := cycle_data s;
     cycle_count := cycle_count s; device_active := device_active s;
     serial_out := serial_out s; csv_file := csv_file s; log := log s;
     slept := slept s |}.

Definition next_serial (s : state) : state :=
  {| clock := clock s; pixels_feed := pixels_feed s; pixels_read := pixels_read s;
     serial_feed := serial_feed s; serial_used := S (serial_used s);
     sensor_data := sensor_data s; cycle_data := cycle_data s;
     cycle_count := cycle_count s; device_active := device_active s;
     serial_out := serial_out s; csv_file := csv_file s; log := log s;
     slept := slept s |}.

Definition set_sensor_data (v : list Q) (s : state) : state :=
  {| clock := clock s; pixels_feed := pixels_feed s; pixels_read := pixels_read s;
     serial_feed := serial_feed s; serial_used := serial_used s;
     sensor_data := v; cycle_data := cycle_data s;
     cycle_count := cycle_count s; device_active := device_active s;
     serial_out := serial_out s; csv_file := csv_file s; log := log s;
     slept := slept s |}.

Definition set_cycle_data (v : list cycle_record) (s : state) : state :=
  {| clock := clock s; pixels_feed := pixels_feed s; pixels_read := pixels_read s;
     serial_feed := serial_feed s; serial_used := serial_used s;
     sensor_data := sensor_data s; cycle_data := v;
     cycle_count := cycle_count s; device_active := device_active s;
     serial_out := serial_out s; csv_file := csv_file s; log := log s;
     slept := slept s |}.

Definition set_cycle_count (v : nat) (s : state) : state :=
  {| clock := clock s; pixels_feed := pixels_feed s; pixels_read := pixels_read s;
     serial_feed := serial_feed s; serial_used := serial_used s;
     sensor_data := sensor_data s; cycle_data := cycle_data s;
     cycle_count := v; device_active := device_active s;
     serial_out := serial_out s; csv_file := csv_file s; log := log s;
     slept := slept s |}.

Definition set_device_active (v : bool) (s : state) : state :=
  {| clock := clock s; pixels_feed := pixels_feed s; pixels_read := pixels_read s;
     serial_feed := serial_feed s; serial_used := serial_used s;
     sensor_data := sensor_data s; cycle_data := cycle_data s;
     cycle_count := cycle_count s; device_active := v;
     serial_out := serial_out s; csv_file := csv_file s; log := log s;
     slept := slept s |}.

Definition emit (c : command) (s : state) : state :=
  {| clock := clock s; pixels_feed := pixels_feed s; pixels_read := pixels_read s;
     serial_feed := serial_feed s; serial_used := serial_used s;
     sensor_data := sensor_data s; cycle_data := cycle_data s;
     cycle_count := cycle_count s; device_active := device_active s;
     serial_out := serial_out s ++ [c]; csv_file := csv_file s; log := log s;
     slept := slept s |}.

Definition add_row (r : csv_row) (s : state) : state :=
  {| clock := clock s; pixels_feed := pixels_feed s; pixels_read := pixels_read s;
     serial_feed := serial_feed s; serial_used := serial_used s;
     sensor_data := sensor_data s; cycle_data := cycle_data s;
     cycle_count := cycle_count s; device_active := device_active s;
     serial_out := serial_out s; csv_file := csv_file s ++ [r]; log := log s;
     slept := slept s |}.

Definition add_log (e : log_level * log_message) (s : state) : state :=
  {| clock := clock s; pixels_feed := pixels_feed s; pixels_read := pixels_read s;
     serial_feed := serial_feed s; serial_used := serial_used s;
     sensor_data := sensor_data s; cycle_data := cycle_data s;
     cycle_count := cycle_count s; device_active := device_active s;
     serial_out := serial_out s; csv_file := csv_file s; log := log s ++ [e];
     slept := slept s |}.

(** ** Primitives of the runtime *)

Definition time_time : M Q := gets clock.

Definition time_sleep (d : Q) : M unit :=
  modify (fun s => note_sleep d (advance d s)).

Definition logger (lvl : log_level) (msg : log_message) : M unit :=
  modify (add_log (lvl, msg)).

(** [sensor.pixels]: [None] when the driver raises. *)
Definition sensor_pixels : M (option (list (list Q))) :=
  fun s => match pixels_feed s (pixels_read s) with
           | Pixels took grid => Some (Some grid, next_pixels (advance (ms took) s))
           | SensorError took => Some (None, next_pixels (advance (ms took) s))
           end.

(** [ser.write(cmd)]: [false] when it raises; the command is on the wire
    otherwise. *)
Definition ser_write (c : command) : M bool :=
  fun s => match serial_feed s (serial_used s) with
           | WriteError took => Some (false, next_serial (advance (ms took) s))
           | _ => Some (true, emit c s)
           end.

(** [ser.readline().decode('utf-8')]: [None] when either call raises. *)
Definition ser_readline : M (option string) :=
  fun s => match serial_feed s (serial_used s) with
           | Line took text => Some (Some text, next_serial (advance (ms took) s))
           | ReadError took | WriteError took =>
               Some (None, next_serial (advance (ms took) s))
           end.

(** [str.strip()]: leading and trailing whitespace removed.  The characters
    are the code points below 256 for which [str.isspace] holds. *)
Definition isspace (c : ascii) : bool :=
  let n := nat_of_ascii c in
  ((9 <=? n) && (n <=? 13) || (28 <=? n) && (n <=? 32)
   || (n =? 133) || (n =? 160))%nat.

Fixpoint lstrip (l : list ascii) : list ascii :=
  match l with
  | c :: l' => if isspace c then lstrip l' else l
  | [] => []
  end.

Definition strip (text : string) : string :=
  string_of_list_ascii
    (rev (lstrip (rev (lstrip (list_ascii_of_string text))))).

(** Truth value of a Python string. *)
Definition truthy (text : string) : bool :=
  match text with
  | EmptyString => false
  | _ => true
  end.

(** [a > b] on floats. *)
Definition fgt (a b : Q) : bool := negb (Qle_bool a b).
(** [a < b] on floats. *)
Definition flt (a b : Q) : bool := negb (Qle_bool b a).

(** ** ThresholdController: [notify_nodemcu], lines 68-88 *)

Definition notify_nodemcu (exceeded : bool) : M unit :=
  active <- gets device_active ;;
  if exceeded && negb active then
    sent <- ser_write THRESHOLD_EXCEEDED ;;
    if sent then
      logger INFO (MsgSent THRESHOLD_EXCEEDED) ;;;
      modify (set_device_active true) ;;;
      line <- ser_readline ;;
      match line with
      | Some text =>
          let response := strip text in
          if truthy response then
            logger INFO (MsgResponse response) ;;;
            modify (set_device_active false)
          else ret tt
      | None => logger ERROR MsgLinkFailure
      end
    else logger ERROR MsgLinkFailure
  else if negb exceeded && active then
    sent <- ser_write RESET_DEVICE ;;
    if sent then
      logger INFO (MsgSent RESET_DEVICE) ;;;
      modify (set_device_active false) ;;;
      line <- ser_readline ;;
      match line with
      | Some text =>
          let response := strip text in
          if truthy response then logger INFO (MsgResponse response)
          else ret tt
      | None => logger ERROR MsgLinkFailure
      end
    else logger ERROR MsgLinkFailure
  else ret tt.

(** ** numpy *)

Definition np_sum (l : list Q) : Q := fold_right Qplus 0 l.

(** [np.mean] of a flat array. *)
Definition np_mean (l : list Q) : Q := np_sum l / inject_Z (Z.of_nat (length l)).

(** [np.mean(x) if x else 0]. *)
Definition mean_or_zero (l : list Q) : Q :=
  match l with
  | [] => 0
  | _ => np_mean l
  end.

(** ** The gathering window: [gather_data], lines 90-118 *)

(** The [while] loop of lines 97-106.  The second component of the result
    tells whether the loop was left by an exception (the [try] of line 96
    encloses the whole loop).  Every iteration sleeps one second, so the
    window takes at most 600 iterations; [fuel] bounds them. *)
Fixpoint gather_loop (fuel : nat) (start_time : Q) (temperatures : list Q)
  : M (list Q * bool) :=
  match fuel with
  | O => fun _ => None
  | S fuel' =>
      now <- time_time ;;
      if flt (now - start_time) 600 then
        pixels <- sensor_pixels ;;
        match pixels with
        | None => ret (temperatures, true)
        | Some temp_grid =>
            let avg_temp := np_mean (concat temp_grid) in
            let temperatures := temperatures ++ [avg_temp] in
            (if fgt avg_temp TEMP_THRESHOLD then
               logger WARNING (MsgExceeded avg_temp) ;;;
               notify_nodemcu true
             else notify_nodemcu false) ;;;
            time_sleep 1 ;;;
            gather_loop fuel' start_time temperatures
        end
      else ret (temperatures, false)
  end.

(** Lines 93-118, with the bound on the loop as a parameter.  The append of
    lines 111-117 is taken to succeed (it stands after the [except] of line
    107, so a failure there would leave the function). *)
Definition gather_data_within (fuel : nat) : M (list Q) :=
  start_time <- time_time ;;
  cycle <- gets cycle_count ;;
  logger INFO (MsgGatherStart cycle) ;;;
  r <- gather_loop fuel start_time [] ;;
  let '(temperatures, raised) := r in
  (if raised : bool then logger ERROR MsgGatherFailure else ret tt) ;;;
  let avg_temp := mean_or_zero temperatures in
  stamp <- time_time ;;
  cycle <- gets cycle_count ;;
  modify (add_row {| row_timestamp := stamp; row_cycle := cycle;
                     row_average := avg_temp; row_predicted := None;
                     row_breach := Some (fgt avg_temp TEMP_THRESHOLD) |}) ;;;
  ret temperatures.

(** 600 iterations and the test that ends the loop. *)
Definition gather_data : M (list Q) := gather_data_within 601.

(** ** scikit-learn's [LinearRegression] on one feature

    [fit] validates its input (an array with no sample raises [ValueError]),
    centres [X] and [y] on their means, solves the centred least-squares
    problem with [scipy.linalg.lstsq] (the minimum-norm solution, which is 0
    when the centred column is null) and sets the intercept from the means.
    Exact rational arithmetic stands for float64. *)

Record LinearRegression := mkModel {
  coef_ : Q;
  intercept_ : Q
}.

Definition dot (u v : list Q) : Q := np_sum (zip_with Qmult u v).

Definition lstsq (x y : list Q) : Q :=
  if Qeq_bool (dot x x) 0 then 0 else dot x y / dot x x.

Definition fit (X y : list Q) : option LinearRegression :=
  match X with
  | [] => None
  | _ =>
      let X_offset := np_mean X in
      let y_offset := np_mean y in
      let coef := lstsq (map (fun x => x - X_offset) X)
                        (map (fun v => v - y_offset) y) in
      Some {| coef_ := coef; intercept_ := y_offset - X_offset * coef |}
  end.

Definition predict (model : LinearRegression) (x : Q) : Q :=
  x * coef_ model + intercept_ model.

(** [np.array(range(n))]. *)
Definition arange (n : nat) : list Q :=
  map (fun i => inject_Z (Z.of_nat i)) (seq 0 n).

(** ** The forecaster: [predict_temperature], lines 120-131 *)

Definition predict_temperature (data : list Q) : M Q :=
  let X := arange (length data) in
  match fit X data with
  | Some model =>
      let future_point := inject_Z (Z.of_nat (length data + 600)) in
      ret (predict model future_point)
  | None =>
      logger ERROR MsgPredictFailure ;;;
      ret 0
  end.

(** ** The scheduler: [data_collection_cycle], lines 133-167 *)

(** The padding of lines 162-164 and 165-167. *)
Definition pad_to (limit start : Q) : M unit :=
  now <- time_time ;;
  let duration := now - start in
  if flt duration limit then time_sleep (limit - duration) else ret tt.

(** Lines 138-139. *)
Definition cycle_open : M Q :=
  modify (fun s => set_cycle_count (S (cycle_count s)) s) ;;;
  time_time.

(** Lines 140-141. *)
Definition cycle_gather : M (list Q) :=
  temp_data <- gather_data ;;
  modify (set_sensor_data temp_data) ;;;
  ret temp_data.

(** Lines 142-161.  The append of lines 150-156 is taken to succeed (it is
    under no [try], so a failure there would end the thread). *)
Definition cycle_record_and_notify (temp_data : list Q) : M unit :=
  predicted_temp <- predict_temperature temp_data ;;
  let avg_temp := mean_or_zero temp_data in
  cycle <- gets cycle_count ;;
  modify (fun s => set_cycle_data
                     (cycle_data s ++ [{| rec_cycle := cycle;
                                          rec_avg_temp := avg_temp;
                                          rec_predicted_temp := predicted_temp |}]) s) ;;;
  logger INFO (MsgPredicted predicted_temp cycle) ;;;
  stamp <- time_time ;;
  modify (add_row {| row_timestamp := stamp; row_cycle := cycle;
                     row_average := avg_temp;
                     row_predicted := Some predicted_temp;
                     row_breach := None |}) ;;;
  if fgt predicted_temp TEMP_THRESHOLD then
    logger WARNING (MsgPredictedExceeds predicted_temp) ;;;
    notify_nodemcu true
  else notify_nodemcu false.

(** One iteration of the [for] loop up to line 161; returns [cycle_start]. *)
Definition cycle_work : M Q :=
  cycle_start <- cycle_open ;;
  temp_data <- cycle_gather ;;
  cycle_record_and_notify temp_data ;;;
  ret cycle_start.

(** One iteration of the [for] loop, lines 138-164. *)
Definition cycle : M unit :=
  cycle_start <- cycle_work ;;
  pad_to 600 cycle_start.

Fixpoint repeat_m (n : nat) (body : M unit) : M unit :=
  match n with
  | O => ret tt
  | S n' => body ;;; repeat_m n' body
  end.

(** Lines 136-137: an hour up to its padding; returns [hour_start]. *)
Definition hour_work : M Q :=
  hour_start <- time_time ;;
  repeat_m 6 cycle ;;;
  ret hour_start.

(** One iteration of the [while running] loop, lines 136-167. *)
Definition hour : M unit :=
  hour_start <- hour_work ;;
  pad_to 3600 hour_start.

(** [running] is never cleared: the loop goes on for ever.  The model runs
    its first [hours] iterations. *)
Definition data_collection_cycle (hours : nat) : M unit := repeat_m hours hour.

(** ** The status query: [get_data], lines 173-181 *)

Record status := mkStatus {
  st_cycle : nat;
  st_current_avg : Q;
  st_latest_predicted : Q;
  st_history : list cycle_record
}.

Definition get_data (s : state) : status :=
  {| st_cycle := cycle_count s;
     st_current_avg := mean_or_zero (sensor_data s);
     st_latest_predicted :=
       match last (cycle_data s) with
       | Some r => rec_predicted_temp r
       | None => 0
       end;
     st_history := cycle_data s |}.

(** ** What a status query can see

    The scheduler thread is the only writer of the globals; a query served
    by another thread reads them between two of its statements.  The three
    kinds of program point at which the globals differ are: between two
    cycles, after line 138 has counted the new cycle, and after line 141 has
    published the new window. *)

Inductive phase :=
| Resting
| Gathering
| Gathered (window : list Q).

(** [h] whole hours, then [k] cycles of the next one. *)
Definition rest_point (h k : nat) : M unit :=
  repeat_m h hour ;;;
  repeat_m k cycle.

Inductive observable (s0 : state) : phase -> state -> Prop :=
| obs_rest h k s :
    (k <= 6)%nat ->
    rest_point h k s0 = Some (tt, s) ->
    observable s0 Resting s
| obs_open h k s t s1 :
    (k < 6)%nat ->
    rest_point h k s0 = Some (tt, s) ->
    cycle_open s = Some (t, s1) ->
    observable s0 Gathering s1
| obs_gathered h k s t s1 window s2 :
    (k < 6)%nat ->
    rest_point h k s0 = Some (tt, s) ->
    cycle_open s = Some (t, s1) ->
    cycle_gather s1 = Some (window, s2) ->
    observable s0 (Gathered window) s2.

(** ** A sequence of readings put to the controller

    Lines 101-105 and 157-161: each reading is compared with the threshold
    and the outcome handed to [notify_nodemcu]. *)
Fixpoint threshold_controller (readings : list Q) : M unit :=
  match readings with
  | [] => ret tt
  | reading :: rest =>
      notify_nodemcu (fgt reading TEMP_THRESHOLD) ;;;
      threshold_controller rest
  end.

(** ** The retention sweep: [cleanup_files], lines 205-218 *)

Definition CSV_FILE : string := "temperature_data.csv".
Definition LOG_FILE : string := "temperature_log.log".

(** The directory: the modification time of each existing file, and the
    files that [os.remove] refuses to delete (it raises on them). *)
Record disk := mkDisk {
  files : gmap string Q;
  protected : gset string;
  disk_log : list (log_level * log_message)
}.

(** A record handed to [logger]: the file handler of line 31 appends it to
    [LOG_FILE] through the descriptor opened at start-up, which renews the
    modification time of that file if it still has its name. *)
Definition disk_logger (now : Q) (lvl : log_level) (msg : log_message) (d : disk) : disk :=
  {| files := match files d !! LOG_FILE with
              | Some _ => <[LOG_FILE := now]> (files d)
              | None => files d
              end;
     protected := protected d;
     disk_log := disk_log d ++ [(lvl, msg)] |}.

Definition os_remove (file : string) (d : disk) : option disk :=
  if decide (file ∈ protected d) then None
  else Some {| files := delete file (files d);
               protected := protected d;
               disk_log := disk_log d |}.

Definition file_age_days (now mtime : Q) : Q := (now - mtime) / 86400.

(** The body of the [for] loop, lines 210-217. *)
Definition sweep_file (now : Q) (file : string) (d : disk) : disk :=
  match files d !! file with
  | Some mtime =>
      if fgt (file_age_days now mtime) 30 then
        match os_remove file d with
        | Some d' => disk_logger now INFO (MsgDeleted file) d'
        | None => disk_logger now ERROR (MsgDeleteFailure file) d
        end
      else d
  | None => d
  end.

(** Lines 208-217: one pass over the two files. *)
Definition cleanup_sweep (now : Q) (d : disk) : disk :=
  fold_left (fun d file => sweep_file now file d) [CSV_FILE; LOG_FILE] d.

(** Lines 207-218: a sweep a day; the model runs the first [sweeps]. *)
Fixpoint cleanup_files (sweeps : nat) (now : Q) (d : disk) : disk :=
  match sweeps with
  | O => d
  | S n => cleanup_files n (now + 86400) (cleanup_sweep now d)
  end.

(** ** The live picture: [generate_temperature_feed], lines 186-188

    The grid is stretched to the range 0..255 and cast to bytes before it is
    coloured and encoded (the colouring, resizing and JPEG encoding of lines
    189-192 belong to OpenCV and are not modelled).  On a uniform grid the
    source divides 0 by 0, a NaN for numpy; nothing is stated about that
    case. *)

(** [np.min] and [np.max]; they raise on an empty array. *)
Definition np_min (l : list Q) : option Q :=
  match l with
  | [] => None
  | x :: rest => Some (fold_left Qmin rest x)
  end.

Definition np_max (l : list Q) : option Q :=
  match l with
  | [] => None
  | x :: rest => Some (fold_left Qmax rest x)
  end.

(** [astype(np.uint8)] on a float: the fraction is dropped and the integer
    taken modulo 256. *)
Definition astype_uint8 (v : Q) : Z := Z.quot (Qnum v) (Zpos (Qden v)) mod 256.

Definition normalize_frame (pixels : list (list Q)) : option (list (list Z)) :=
  let frame := concat pixels in
  match np_min frame, np_max frame with
  | Some lo, Some hi =>
      Some (map (map (fun v => astype_uint8 ((v - lo) / (hi - lo) * 255))) pixels)
  | _, _ => None
  end.

(** ** Environments used in the examples *)

Definition uniform_grid (t : Q) : list (list Q) := repeat (repeat t 8) 8.

(** A sensor that always delivers the same grid, at once. *)
Definition steady_sensor (t : Q) : nat -> sensor_event :=
  fun _ => Pixels 0 (uniform_grid t).

(** A sensor whose first reads are listed and which delivers a grid at
    [t] degrees from then on. *)
Definition scripted_sensor (script : list sensor_event) (t : Q) : nat -> sensor_event :=
  fun i => nth i script (Pixels 0 (uniform_grid t)).

(** A link on which no response ever arrives: every read times out. *)
Definition silent_link : nat -> link_event := fun _ => Line 0 "".

(** A link on which every command is acknowledged. *)
Definition answering_link : nat -> link_event := fun _ => Line 0 "OK".

Definition final {A} (r : option (A * state)) (fallback : state) : state :=
  match r with
  | Some (_, s) => s
  | None => fallback
  end.

(** A run in which the sensor fails on its second read, and again three reads
    later; nothing answers on the link. *)
Definition demo_boot : state :=
  boot 0
    (scripted_sensor
       [Pixels 0 (uniform_grid 30); SensorError 0;
        Pixels 0 (uniform_grid 36); Pixels 0 (uniform_grid 37); SensorError 0] 30)
    silent_link.

(** After its first cycle. *)
Definition demo_rest : state := final (rest_point 0 1 demo_boot) demo_boot.

(** Once line 138 has counted the second cycle. *)
Definition demo_gathering : state := final (cycle_open demo_rest) demo_rest.

(** Once line 138 has counted the first cycle: nothing gathered yet. *)
Definition first_gathering : state := final (cycle_open demo_boot) demo_boot.

(** A start with a sensor that raises on every read, and the state one hour
    of the scheduler later. *)
Definition blind_boot : state := boot 0 (fun _ => SensorError 0) silent_link.

Definition blind_hour : state :=
  Eval vm_compute in final (data_collection_cycle 1 blind_boot) blind_boot.

(** A directory holding the two files, both last written at time 0. *)
Definition demo_disk : disk :=
  {| files := <[CSV_FILE := 0]> (<[LOG_FILE := 0]> ∅);
     protected := ∅;
     disk_log := [] |}.

(** [n] days, in seconds. *)
Definition days (n : Q) : Q := n * 86400.

(** ** Predicates used in the statements *)

(** What the statements of the scheduler other than lines 111-117, 138, 141,
    144 and 150-156 do to the state: time passes, sleeps are recorded, and
    the data file and the three globals read by the status query stay as
    they are. *)
Record steps (s s' : state) : Prop := mkSteps {
  steps_clock : clock s <= clock s';
  steps_sensor_data : sensor_data s' = sensor_data s;
  steps_cycle_data : cycle_data s' = cycle_data s;
  steps_cycle_count : cycle_count s' = cycle_count s;
  steps_csv_file : csv_file s' = csv_file s;
  steps_slept : exists new, slept s' = new ++ slept s /\ Forall (fun d => 0 <= d) new
}.

(** A total computation whose final state is related to the initial one. *)
Definition runs {A} (m : M A) (R : state -> state -> Prop) : Prop :=
  forall s, exists a s', m s = Some (a, s') /\ R s s'.

(** The command for an edge of the breach condition. *)
Definition command_for (exceeded : bool) : command :=
  if exceeded then THRESHOLD_EXCEEDED else RESET_DEVICE.

(** The commands an edge-triggered controller sends for a sequence of
    breach conditions, from the given actuator state. *)
Fixpoint edges (active : bool) (conditions : list bool) : list command :=
  match conditions with
  | [] => []
  | e :: rest =>
      if xorb e active then command_for e :: edges e rest else edges e rest
  end.

(** No command occurs twice in a row. *)
Fixpoint alternating (l : list command) : Prop :=
  match l with
  | a :: ((b :: _) as tl) => a <> b /\ alternating tl
  | _ => True
  end.

(** A link on which the exchange at the cursor and all later ones carry no
    answer: the write goes through and the read times out or yields only
    whitespace. *)
Definition unanswered (lk : nat -> link_event) (from : nat) : Prop :=
  forall i, (from <= i)%nat ->
    exists took text, lk i = Line took text /\ truthy (strip text) = false.

(** The state between two cycles: the history is numbered 1, 2, ... up to
    the cycle counter, and the published window is the one the last record
    averages. *)
Definition consistent (s : state) : Prop :=
  map rec_cycle (cycle_data s) = seq 1 (cycle_count s) /\
  match last (cycle_data s) with
  | Some r => rec_avg_temp r = mean_or_zero (sensor_data s)
  | None => sensor_data s = []
  end.

(** Records numbered from 1 without a gap. *)
Definition gapless (history : list cycle_record) : Prop :=
  (forall r, history !! 0%nat = Some r -> rec_cycle r = 1%nat) /\
  (forall i r r', (0 < i)%nat ->
     history !! i = Some r -> history !! (i - 1)%nat = Some r' ->
     rec_cycle r = (rec_cycle r' + 1)%nat) /\
  (forall r, In r history -> rec_cycle r <> 0%nat).


(** Partial correctness of a computation for an invariant. *)
Definition preserves {A} (m : M A) (P : state -> Prop) : Prop :=
  forall s a s', P s -> m s = Some (a, s') -> P s'.

(** Time does not go back and no sleep is negative. *)
Definition elapses (s s' : state) : Prop :=
  clock s <= clock s' /\
  exists new, slept s' = new ++ slept s /\ Forall (fun d => 0 <= d) new.

(** The two padding rules of the scheduler, for a piece of work [work] that
    returns its starting time and a padded version [padded] of it: below the
    limit the remainder is slept, once, and the whole spans the limit; at or
    above the limit nothing is slept and nothing else happens. *)
Definition padded_to (limit : Q) (work : M Q) (padded : M unit) (s : state) : Prop :=
  exists s1 s',
    work s = Some (clock s, s1) /\
    padded s = Some (tt, s') /\
    let duration := clock s1 - clock s in
    (duration < limit ->
       0 < limit - duration /\
       slept s' = (limit - duration) :: slept s1 /\
       clock s' == clock s + limit) /\
    (limit <= duration -> s' = s1).

(** * Facts *)

(** ** Comparisons and latencies *)

Lemma fgt_spec a b : fgt a b = true <-> b < a.
Proof.
  unfold fgt. rewrite negb_true_iff, <- not_true_iff_false, Qle_bool_iff.
  split; [apply Qnot_le_lt | apply Qlt_not_le].
Qed.

Lemma flt_spec a b : flt a b = true <-> a < b.
Proof. apply fgt_spec. Qed.

Lemma flt_false a b : flt a b = false <-> b <= a.
Proof.
  unfold flt. rewrite negb_false_iff. apply Qle_bool_iff.
Qed.

Lemma ms_nonneg n : 0 <= ms n.
Proof. unfold ms, Qle. simpl. lia. Qed.

(** ** [steps] is a preorder *)

Lemma steps_refl s : steps s s.
Proof.
  constructor; try reflexivity; try apply Qle_refl.
  exists []. split; [reflexivity | constructor].
Qed.

Lemma steps_trans s1 s2 s3 : steps s1 s2 -> steps s2 s3 -> steps s1 s3.
Proof.
  intros [c1 a1 b1 d1 r1 [n1 [e1 f1]]] [c2 a2 b2 d2 r2 [n2 [e2 f2]]].
  constructor; try congruence.
  - eapply Qle_trans; eassumption.
  - exists (n2 ++ n1). split.
    + rewrite e2, e1. apply app_assoc.
    + apply Forall_app. split; assumption.
Qed.

Lemma steps_advance d s : 0 <= d -> steps s (advance d s).
Proof.
  intros Hd. constructor; simpl; try reflexivity.
  - lra.
  - exists []. split; [reflexivity | constructor].
Qed.

Lemma steps_sleep d s : 0 <= d -> steps s (note_sleep d (advance d s)).
Proof.
  intros Hd. constructor; simpl; try reflexivity.
  - lra.
  - exists [d]. split; [reflexivity | repeat constructor; assumption].
Qed.

Lemma runs_bind {A B} (m : M A) (f : A -> M B) :
  runs m steps -> (forall a, runs (f a) steps) -> runs (bind m f) steps.
Proof.
  intros Hm Hf s. destruct (Hm s) as (a & s1 & E1 & R1).
  destruct (Hf a s1) as (b & s2 & E2 & R2).
  exists b, s2. unfold bind. rewrite E1. split; [exact E2 | eapply steps_trans; eassumption].
Qed.

Lemma runs_ret {A} (a : A) : runs (ret a) steps.
Proof. intros s. exists a, s. split; [reflexivity | apply steps_refl]. Qed.

Lemma runs_gets {A} (f : state -> A) : runs (gets f) steps.
Proof. intros s. exists (f s), s. split; [reflexivity | apply steps_refl]. Qed.

Lemma runs_logger lvl msg : runs (logger lvl msg) steps.
Proof.
  intros s. eexists _, _. split; [reflexivity |].
  constructor; simpl; try reflexivity; try apply Qle_refl.
  exists []. split; [reflexivity | constructor].
Qed.

Lemma runs_set_device_active b : runs (modify (set_device_active b)) steps.
Proof.
  intros s. eexists _, _. split; [reflexivity |].
  constructor; simpl; try reflexivity; try apply Qle_refl.
  exists []. split; [reflexivity | constructor].
Qed.

Lemma runs_time_time : runs time_time steps.
Proof. apply runs_gets. Qed.

Lemma runs_time_sleep d : 0 <= d -> runs (time_sleep d) steps.
Proof.
  intros Hd s. eexists _, _. split; [reflexivity | apply steps_sleep; assumption].
Qed.

Lemma runs_sensor_pixels : runs sensor_pixels steps.
Proof.
  intros s. unfold sensor_pixels.
  destruct (pixels_feed s (pixels_read s)) as [took grid | took];
    eexists _, _; (split; [reflexivity |]);
    (constructor; simpl; try reflexivity;
     [ pose proof (ms_nonneg took); lra
     | exists []; split; [reflexivity | constructor] ]).
Qed.

Lemma runs_ser_write c : runs (ser_write c) steps.
Proof.
  intros s. unfold ser_write.
  destruct (serial_feed s (serial_used s)) as [took | took | took text];
    eexists _, _; (split; [reflexivity |]);
    (constructor; simpl; try reflexivity;
     [ try (pose proof (ms_nonneg took)); lra
     | exists []; split; [reflexivity | constructor] ]).
Qed.

Lemma runs_ser_readline : runs ser_readline steps.
Proof.
  intros s. unfold ser_readline.
  destruct (serial_feed s (serial_used s)) as [took | took | took text];
    eexists _, _; (split; [reflexivity |]);
    (constructor; simpl; try reflexivity;
     [ pose proof (ms_nonneg took); lra
     | exists []; split; [reflexivity | constructor] ]).
Qed.

Create HintDb runs_db.

#[local] Hint Resolve runs_ret runs_gets runs_logger
  runs_set_device_active runs_time_time runs_sensor_pixels runs_ser_write
  runs_ser_readline : runs_db.

(** ** The threshold controller *)

Lemma runs_notify_nodemcu exceeded : runs (notify_nodemcu exceeded) steps.
Proof.
  unfold notify_nodemcu.
  apply runs_bind; [ apply runs_gets | intros active ].
  destruct (exceeded && negb active); [ | destruct (negb exceeded && active) ].
  - apply runs_bind; [ apply runs_ser_write | intros [|] ]; [ | apply runs_logger ].
    repeat (apply runs_bind; [ solve [ eauto with runs_db ] | intros ? ]).
    match goal with a : option string |- _ => destruct a as [text|] end;
      [ | apply runs_logger ].
    cbv zeta. destruct (truthy (strip text)); [ | apply runs_ret ].
    apply runs_bind; [ apply runs_logger | intros _; apply runs_set_device_active ].
  - apply runs_bind; [ apply runs_ser_write | intros [|] ]; [ | apply runs_logger ].
    repeat (apply runs_bind; [ solve [ eauto with runs_db ] | intros ? ]).
    match goal with a : option string |- _ => destruct a as [text|] end;
      [ | apply runs_logger ].
    cbv zeta. destruct (truthy (strip text)); [ apply runs_logger | apply runs_ret ].
  - apply runs_ret.
Qed.

Ltac unfold_m :=
  unfold time_time, time_sleep, logger, ser_write, ser_readline in *;
  unfold bind, gets, modify, ret in *.

(** No edge, no effect at all. *)
Lemma notify_nodemcu_level exceeded s :
  xorb exceeded (device_active s) = false ->
  notify_nodemcu exceeded s = Some (tt, s).
Proof.
  intros H. unfold notify_nodemcu. unfold_m.
  destruct exceeded, (device_active s); simpl in *; congruence.
Qed.

(** An edge on a link that takes the write: the command goes out, the
    exchange is consumed, and the flag ends as the answer decides. *)
Lemma notify_nodemcu_edge exceeded s :
  xorb exceeded (device_active s) = true ->
  (forall took, serial_feed s (serial_used s) <> WriteError took) ->
  exists s',
    notify_nodemcu exceeded s = Some (tt, s') /\
    serial_out s' = serial_out s ++ [command_for exceeded] /\
    serial_feed s' = serial_feed s /\
    serial_used s' = S (serial_used s) /\
    device_active s' =
      match serial_feed s (serial_used s) with
      | Line _ text => exceeded && negb (truthy (strip text))
      | _ => exceeded
      end.
Proof.
  intros H Hw. unfold notify_nodemcu. unfold_m.
  destruct exceeded, (device_active s) eqn:Ea; simpl in H; try discriminate; simpl.
  - destruct (serial_feed s (serial_used s)) as [took | took | took text] eqn:Ef.
    + exfalso. eapply Hw; reflexivity.
    + simpl. rewrite Ef. eexists. split; [reflexivity |]. simpl. auto.
    + simpl. rewrite Ef. destruct (truthy (strip text)) eqn:Et;
        eexists; (split; [reflexivity |]); simpl; auto.
  - destruct (serial_feed s (serial_used s)) as [took | took | took text] eqn:Ef.
    + exfalso. eapply Hw; reflexivity.
    + simpl. rewrite Ef. eexists. split; [reflexivity |]. simpl. auto.
    + simpl. rewrite Ef. destruct (truthy (strip text)) eqn:Et;
        eexists; (split; [reflexivity |]); simpl; auto.
Qed.

(** An edge on a link that refuses the write: nothing goes out, the flag
    stays, the failure is logged. *)
Lemma notify_nodemcu_write_error exceeded s took :
  xorb exceeded (device_active s) = true ->
  serial_feed s (serial_used s) = WriteError took ->
  exists s',
    notify_nodemcu exceeded s = Some (tt, s') /\
    serial_out s' = serial_out s /\
    device_active s' = device_active s /\
    log s' = log s ++ [(ERROR, MsgLinkFailure)].
Proof.
  intros H Hw. unfold notify_nodemcu. unfold_m.
  destruct exceeded, (device_active s) eqn:Ea; simpl in H; try discriminate; simpl;
    rewrite Hw; simpl; eexists; (split; [reflexivity |]); simpl; auto.
Qed.

(** The controller is edge-triggered on its stored flag: a command is sent
    exactly when the breach condition differs from [device_active]. *)
Theorem notify_nodemcu_sends_iff_edge exceeded s :
  (forall took, serial_feed s (serial_used s) <> WriteError took) ->
  exists s',
    notify_nodemcu exceeded s = Some (tt, s') /\
    serial_out s' =
      serial_out s ++
      (if xorb exceeded (device_active s) then [command_for exceeded] else []).
Proof.
  intros Hw. destruct (xorb exceeded (device_active s)) eqn:E.
  - destruct (notify_nodemcu_edge exceeded s E Hw) as (s' & R & O & _).
    exists s'. auto.
  - exists s. split; [apply notify_nodemcu_level; exact E |].
    symmetry. apply app_nil_r.
Qed.

Lemma notify_nodemcu_sends_iff_edge_witness :
  exists s',
    notify_nodemcu true (boot 0 (steady_sensor 36) answering_link) = Some (tt, s') /\
    serial_out s' = [] ++ [THRESHOLD_EXCEEDED].
Proof.
  apply (notify_nodemcu_sends_iff_edge true (boot 0 (steady_sensor 36) answering_link)).
  intros took. simpl. discriminate.
Defined.

(** *** Unanswered links: the debounce holds *)

Lemma edges_head active conditions :
  match edges active conditions with
  | c :: _ => c = command_for (negb active)
  | [] => True
  end.
Proof.
  revert active. induction conditions as [|e rest IH]; intros active; simpl; [exact I |].
  destruct e, active; simpl; try reflexivity; apply IH.
Qed.

Lemma edges_alternating active conditions : alternating (edges active conditions).
Proof.
  revert active. induction conditions as [|e rest IH]; intros active; simpl; [exact I |].
  destruct (xorb e active); [ | apply IH ].
  pose proof (edges_head e rest) as Hh. pose proof (IH e) as Ha.
  destruct (edges e rest) as [|c tl]; simpl; [exact I |].
  split; [ | exact Ha ].
  subst c. destruct e; discriminate.
Qed.

Lemma unanswered_later lk i j : (i <= j)%nat -> unanswered lk i -> unanswered lk j.
Proof. intros Hij H k Hk. apply H. lia. Qed.

Lemma notify_nodemcu_unanswered exceeded s :
  unanswered (serial_feed s) (serial_used s) ->
  exists s',
    notify_nodemcu exceeded s = Some (tt, s') /\
    serial_out s' = serial_out s ++ edges (device_active s) [exceeded] /\
    device_active s' = exceeded /\
    unanswered (serial_feed s') (serial_used s').
Proof.
  intros Hu. destruct (xorb exceeded (device_active s)) eqn:E.
  - destruct (Hu (serial_used s)) as (took & text & Ef & Et); [lia |].
    destruct (notify_nodemcu_edge exceeded s E) as (s' & R & O & F & U & A).
    { intros t. rewrite Ef. discriminate. }
    exists s'. simpl. rewrite E. repeat split; try assumption.
    + rewrite A, Ef, Et. simpl. apply andb_true_r.
    + rewrite F, U. eapply unanswered_later; [ | exact Hu ]. lia.
  - exists s. simpl. rewrite E. repeat split.
    + apply notify_nodemcu_level. exact E.
    + symmetry. apply app_nil_r.
    + destruct exceeded, (device_active s); simpl in E; congruence.
    + exact Hu.
Qed.

(** On a link that never answers, the commands sent for any sequence of
    readings are the edges of the breach condition. *)
Lemma threshold_controller_unanswered readings : forall s,
  unanswered (serial_feed s) (serial_used s) ->
  exists s',
    threshold_controller readings s = Some (tt, s') /\
    serial_out s' =
      serial_out s ++
      edges (device_active s) (map (fun r => fgt r TEMP_THRESHOLD) readings) /\
    unanswered (serial_feed s') (serial_used s').
Proof.
  induction readings as [|r rest IH]; intros s Hu; simpl.
  - exists s. repeat split; [ symmetry; apply app_nil_r | exact Hu ].
  - destruct (notify_nodemcu_unanswered (fgt r TEMP_THRESHOLD) s Hu)
      as (s1 & R1 & O1 & A1 & U1).
    destruct (IH s1 U1) as (s2 & R2 & O2 & U2).
    exists s2. unfold bind. rewrite R1. repeat split; try assumption.
    rewrite O2, O1, A1. simpl.
    destruct (xorb (fgt r TEMP_THRESHOLD) (device_active s)); simpl.
    + rewrite <- app_assoc. reflexivity.
    + rewrite app_nil_r. reflexivity.
Qed.

(** Debounce on an unanswered link: from the inactive actuator, whatever the
    readings, no command is sent twice in a row. *)
Theorem threshold_controller_debounced readings t0 px lk :
  unanswered lk 0 ->
  exists s',
    threshold_controller readings (boot t0 px lk) = Some (tt, s') /\
    alternating (serial_out s').
Proof.
  intros Hu.
  destruct (threshold_controller_unanswered readings (boot t0 px lk) Hu)
    as (s' & R & O & _).
  exists s'. split; [exact R |].
  rewrite O. simpl. apply edges_alternating.
Qed.

Lemma silent_link_unanswered : unanswered silent_link 0.
Proof. intros i _. exists 0%N, ""%string. split; reflexivity. Qed.

Lemma threshold_controller_debounced_witness :
  exists s',
    threshold_controller [30; 36; 37; 34; 36] (boot 0 (steady_sensor 30) silent_link)
      = Some (tt, s') /\
    alternating (serial_out s').
Proof.
  apply (threshold_controller_debounced [30; 36; 37; 34; 36] 0
           (steady_sensor 30) silent_link).
  exact silent_link_unanswered.
Defined.

(** C1.  Two breaches in a row on a link that acknowledges the first
    command: the acknowledgement clears [device_active] (line 79), so the
    second breach sends THRESHOLD_EXCEEDED again with no RESET_DEVICE in
    between. *)
Theorem notify_nodemcu_repeats_activate :
  (fun r => (serial_out (snd r), device_active (snd r))) <$>
    threshold_controller [36; 36] (boot 0 (steady_sensor 36) answering_link)
  = Some ([THRESHOLD_EXCEEDED; THRESHOLD_EXCEEDED], false).
Proof. vm_compute. reflexivity. Qed.

(** ** The gathering window *)

Lemma inject_succ f : inject_Z (Z.of_nat (S f)) == inject_Z (Z.of_nat f) + 1.
Proof. rewrite Nat2Z.inj_succ. unfold Z.succ. rewrite inject_Z_plus. reflexivity. Qed.

Lemma runs_tick avg_temp :
  runs ((if fgt avg_temp TEMP_THRESHOLD then
           logger WARNING (MsgExceeded avg_temp) ;;;
           notify_nodemcu true
         else notify_nodemcu false) ;;;
        time_sleep 1)
       (fun s s' => steps s s' /\ clock s + 1 <= clock s').
Proof.
  intros s.
  assert (Hn : runs (if fgt avg_temp TEMP_THRESHOLD then
                       logger WARNING (MsgExceeded avg_temp) ;;;
                       notify_nodemcu true
                     else notify_nodemcu false) steps).
  { destruct (fgt avg_temp TEMP_THRESHOLD); [ | apply runs_notify_nodemcu ].
    apply runs_bind; [ apply runs_logger | intros _; apply runs_notify_nodemcu ]. }
  destruct (Hn s) as ([] & s1 & E1 & R1).
  unfold bind at 1. rewrite E1.
  eexists tt, _. split; [reflexivity |]. split.
  - eapply steps_trans; [exact R1 |]. apply steps_sleep. lra.
  - simpl. pose proof (steps_clock _ _ R1). lra.
Qed.

Lemma gather_loop_unfold fuel start_time temperatures s :
  gather_loop (S fuel) start_time temperatures s =
  if flt (clock s - start_time) 600 then
    match sensor_pixels s with
    | Some (Some temp_grid, s1) =>
        let avg_temp := np_mean (concat temp_grid) in
        match ((if fgt avg_temp TEMP_THRESHOLD then
                  logger WARNING (MsgExceeded avg_temp) ;;;
                  notify_nodemcu true
                else notify_nodemcu false) ;;;
               time_sleep 1) s1 with
        | Some (_, s2) => gather_loop fuel start_time (temperatures ++ [avg_temp]) s2
        | None => None
        end
    | Some (None, s1) => Some ((temperatures, true), s1)
    | None => None
    end
  else Some ((temperatures, false), s).
Proof.
  simpl. unfold bind at 1. unfold time_time, gets.
  destruct (flt (clock s - start_time) 600); [ | reflexivity ].
  unfold bind at 1. destruct (sensor_pixels s) as [[[grid|] s1]|]; try reflexivity.
  unfold bind at 1.
  destruct ((if fgt (np_mean (concat grid)) TEMP_THRESHOLD
             then logger WARNING (MsgExceeded (np_mean (concat grid))) ;;; notify_nodemcu true
             else notify_nodemcu false) s1) as [[[] s2]|] eqn:E.
  - unfold bind in *. rewrite E. reflexivity.
  - unfold bind in *. rewrite E. reflexivity.
Qed.

(** The loop ends within its fuel; a window left without an exception has
    lasted 600 seconds; the samples are appended to those already there,
    at most one per remaining second. *)
Lemma gather_loop_runs fuel : forall start_time temperatures s,
  600 - (clock s - start_time) <= inject_Z (Z.of_nat fuel) ->
  exists temperatures' raised s',
    gather_loop (S fuel) start_time temperatures s
      = Some ((temperatures', raised), s') /\
    steps s s' /\
    (raised = false -> 600 <= clock s' - start_time) /\
    (exists new, temperatures' = temperatures ++ new /\ (length new <= fuel)%nat).
Proof.
  induction fuel as [|fuel IH]; intros start temps s Hb; rewrite gather_loop_unfold.
  - destruct (flt (clock s - start) 600) eqn:Ec.
    + apply flt_spec in Ec. change (inject_Z (Z.of_nat 0)) with 0 in Hb. lra.
    + apply flt_false in Ec. exists temps, false, s.
      split; [reflexivity |]. split; [apply steps_refl |].
      split; [intros _; exact Ec |].
      exists []. split; [ symmetry; apply app_nil_r | simpl; lia ].
  - destruct (flt (clock s - start) 600) eqn:Ec.
    + destruct (runs_sensor_pixels s) as (px & s1 & E1 & R1). rewrite E1.
      destruct px as [grid|].
      * cbv zeta.
        destruct (runs_tick (np_mean (concat grid)) s1) as ([] & s2 & E2 & R2 & C2).
        rewrite E2.
        destruct (IH start (temps ++ [np_mean (concat grid)]) s2)
          as (temps' & raised & s3 & E3 & R3 & W3 & new & N3 & L3).
        { rewrite inject_succ in Hb. pose proof (steps_clock _ _ R1). lra. }
        exists temps', raised, s3.
        split; [exact E3 |]. split; [ | split; [exact W3 |] ].
        -- eapply steps_trans; [exact R1 |]. eapply steps_trans; eassumption.
        -- exists (np_mean (concat grid) :: new). split.
           ++ rewrite N3, <- app_assoc. reflexivity.
           ++ simpl. lia.
      * exists temps, true, s1.
        split; [reflexivity |]. split; [exact R1 |]. split; [discriminate |].
        exists []. split; [ symmetry; apply app_nil_r | simpl; lia ].
    + apply flt_false in Ec. exists temps, false, s.
      split; [reflexivity |]. split; [apply steps_refl |].
      split; [intros _; exact Ec |].
      exists []. split; [ symmetry; apply app_nil_r | simpl; lia ].
Qed.

Lemma gather_data_within_unfold fuel s :
  gather_data_within fuel s =
  match gather_loop fuel (clock s) []
          (add_log (INFO, MsgGatherStart (cycle_count s)) s) with
  | Some ((temperatures, raised), s1) =>
      let s2 := if raised : bool then add_log (ERROR, MsgGatherFailure) s1 else s1 in
      Some (temperatures,
            add_row {| row_timestamp := clock s2; row_cycle := cycle_count s2;
                       row_average := mean_or_zero temperatures;
                       row_predicted := None;
                       row_breach := Some (fgt (mean_or_zero temperatures)
                                               TEMP_THRESHOLD) |} s2)
  | None => None
  end.
Proof.
  unfold gather_data_within. unfold_m.
  destruct (gather_loop fuel (clock s) []
              (add_log (INFO, MsgGatherStart (cycle_count s)) s))
    as [[[temps [|]] s1]|]; reflexivity.
Qed.

Lemma gather_data_within_window fuel s :
  600 <= inject_Z (Z.of_nat fuel) ->
  exists temperatures s',
    gather_data_within (S fuel) s = Some (temperatures, s') /\
    (length temperatures <= fuel)%nat /\
    csv_file s' =
      csv_file s ++
      [{| row_timestamp := clock s'; row_cycle := cycle_count s;
          row_average := mean_or_zero temperatures;
          row_predicted := None;
          row_breach := Some (fgt (mean_or_zero temperatures) TEMP_THRESHOLD) |}] /\
    clock s <= clock s' /\
    sensor_data s' = sensor_data s /\
    cycle_data s' = cycle_data s /\
    cycle_count s' = cycle_count s /\
    (exists new, slept s' = new ++ slept s /\ Forall (fun d => 0 <= d) new) /\
    (600 <= clock s' - clock s \/
     exists before, log s' = before ++ [(ERROR, MsgGatherFailure)]).
Proof.
  intros Hf. rewrite gather_data_within_unfold.
  destruct (gather_loop_runs fuel (clock s) []
              (add_log (INFO, MsgGatherStart (cycle_count s)) s))
    as (temps & raised & s1 & E & R & W & new & N & L).
  { simpl. lra. }
  rewrite E. cbv zeta. destruct R as [Rc Rs Rd Rn Rf Rz].
  simpl in Rc, Rs, Rd, Rn, Rf, Rz.
  exists temps. eexists. split; [reflexivity |].
  simpl in N. subst temps.
  destruct raised; simpl; rewrite Rf, Rn;
    (split; [exact L |]); (split; [reflexivity |]);
    (split; [exact Rc |]); (split; [exact Rs |]); (split; [exact Rd |]);
    (split; [reflexivity |]); (split; [exact Rz |]).
  - right. eexists. reflexivity.
  - left. apply W. reflexivity.
Qed.

(** The gathering window returns: at most 600 samples; one row in the data
    file, carrying the number of the cycle, the mean of the samples (0 when
    there is none), no prediction and the breach flag; the globals of the
    status query untouched; and either 600 seconds have passed or the
    failure that cut the window short is the last entry of the log. *)
Lemma gather_data_returns s :
  exists temperatures s',
    gather_data s = Some (temperatures, s') /\
    (length temperatures <= 600)%nat /\
    csv_file s' =
      csv_file s ++
      [{| row_timestamp := clock s'; row_cycle := cycle_count s;
          row_average := mean_or_zero temperatures;
          row_predicted := None;
          row_breach := Some (fgt (mean_or_zero temperatures) TEMP_THRESHOLD) |}] /\
    clock s <= clock s' /\
    sensor_data s' = sensor_data s /\
    cycle_data s' = cycle_data s /\
    cycle_count s' = cycle_count s /\
    (exists new, slept s' = new ++ slept s /\ Forall (fun d => 0 <= d) new) /\
    (600 <= clock s' - clock s \/
     exists before, log s' = before ++ [(ERROR, MsgGatherFailure)]).
Proof.
  apply (gather_data_within_window 600 s).
  vm_compute. discriminate.
Qed.

(** C2.  A sensor that raises on its second read: the window is over after
    one second with the one sample it had, the failure is logged, and the
    sensor is not read again although 599 seconds of the window remain. *)
Theorem gather_data_stops_at_fault :
  match gather_data
          (boot 0 (scripted_sensor [Pixels 0 (uniform_grid 30); SensorError 0] 30)
             silent_link) with
  | Some (temperatures, s') =>
      length temperatures = 1%nat /\
      clock s' == 1 /\
      pixels_read s' = 2%nat /\
      log s' = [(INFO, MsgGatherStart 0); (ERROR, MsgGatherFailure)]
  | None => False
  end.
Proof. vm_compute. repeat split. Qed.

(** ** The forecaster *)

(** C6.  On the empty list the fit raises, the failure is logged and the
    fallback 0 is returned. *)
Theorem predict_temperature_empty s :
  predict_temperature [] s = Some (0, add_log (ERROR, MsgPredictFailure) s).
Proof. reflexivity. Qed.

(** C5.  On [1; 2; 3; 4; 5] the fit has slope 1 and intercept 1, and the
    value returned is the line at index 5 + 600, that is 606. *)
Theorem predict_temperature_linear s :
  exists model,
    fit (arange 5) [1; 2; 3; 4; 5] = Some model /\
    coef_ model == 1 /\
    intercept_ model == 1 /\
    predict_temperature [1; 2; 3; 4; 5] s = Some (predict model 605, s) /\
    predict model 605 == 606.
Proof.
  eexists. split; [ reflexivity | ].
  split; [ vm_compute; reflexivity | ].
  split; [ vm_compute; reflexivity | ].
  split; [ reflexivity | vm_compute; reflexivity ].
Qed.

(** C3, as the code has it.  A single point fits the constant line through
    it: the centred column is null, the slope is 0 and the intercept is the
    point; no exception is raised and the value returned is the point. *)
Theorem predict_temperature_single v s :
  exists p, predict_temperature [v] s = Some (p, s) /\ p == v.
Proof.
  unfold predict_temperature, fit, arange. cbn [length seq map].
  eexists. split; [ reflexivity | ].
  unfold predict, lstsq. cbn [coef_ intercept_].
  replace (Qeq_bool _ 0) with true by (vm_compute; reflexivity).
  unfold np_mean, np_sum. simpl. field.
Qed.

(** C3, counterexample.  The single reading 20 is returned as it is, not
    replaced by the fallback 0. *)
Lemma predict_temperature_single_not_zero :
  match predict_temperature [20] (boot 0 (steady_sensor 20) silent_link) with
  | Some (p, _) => p == 20 /\ ~ p == 0
  | None => False
  end.
Proof.
  vm_compute. split; [ reflexivity | intros H; discriminate H ].
Qed.

Lemma runs_predict_temperature data : runs (predict_temperature data) steps.
Proof.
  unfold predict_temperature. destruct (fit (arange (length data)) data).
  - apply runs_ret.
  - apply runs_bind; [ apply runs_logger | intros _; apply runs_ret ].
Qed.

(** ** The scheduler *)

(** The forecast does not depend on the state it is computed in. *)
Lemma predict_temperature_value data s1 s2 :
  fst <$> predict_temperature data s1 = fst <$> predict_temperature data s2.
Proof.
  unfold predict_temperature. destruct (fit (arange (length data)) data); reflexivity.
Qed.

(** One cycle up to its padding: the counter goes up by one, the window is
    published, one record numbered with the new count is appended to the
    history, and two rows go to the data file. *)
Lemma cycle_work_spec s :
  exists temps p s',
    cycle_work s = Some (clock s, s') /\
    (length temps <= 600)%nat /\
    fst <$> predict_temperature temps s = Some p /\
    sensor_data s' = temps /\
    cycle_count s' = S (cycle_count s) /\
    cycle_data s' =
      cycle_data s ++
      [{| rec_cycle := S (cycle_count s);
          rec_avg_temp := mean_or_zero temps;
          rec_predicted_temp := p |}] /\
    clock s <= clock s' /\
    (exists new, slept s' = new ++ slept s /\ Forall (fun d => 0 <= d) new) /\
    (exists t1 t2,
       csv_file s' =
         csv_file s ++
         [{| row_timestamp := t1; row_cycle := S (cycle_count s);
             row_average := mean_or_zero temps; row_predicted := None;
             row_breach := Some (fgt (mean_or_zero temps) TEMP_THRESHOLD) |};
          {| row_timestamp := t2; row_cycle := S (cycle_count s);
             row_average := mean_or_zero temps; row_predicted := Some p;
             row_breach := None |}]).
Proof.
  unfold cycle_work, cycle_open, cycle_gather, cycle_record_and_notify. unfold_m.
  destruct (gather_data_returns (set_cycle_count (S (cycle_count s)) s))
    as (temps & s2 & Eg & Lg & Cg & Kg & Sg & Dg & Ng & Zg & _).
  simpl in Cg, Kg, Sg, Dg, Ng, Zg.
  rewrite Eg.
  destruct (runs_predict_temperature temps (set_sensor_data temps s2))
    as (p & s4 & Ep & Rp).
  rewrite Ep.
  destruct Rp as [Pc Ps Pd Pn Pf Pz]. simpl in Pc, Ps, Pd, Pn, Pf, Pz.
  assert (Hn : forall x, exists s6,
             (if fgt p TEMP_THRESHOLD
              then fun s0 => notify_nodemcu true
                               (add_log (WARNING, MsgPredictedExceeds p) s0)
              else notify_nodemcu false) x = Some (tt, s6) /\ steps x s6).
  { intros x. destruct (fgt p TEMP_THRESHOLD).
    - destruct (runs_notify_nodemcu true (add_log (WARNING, MsgPredictedExceeds p) x))
        as ([] & s6 & E6 & R6).
      exists s6. split; [exact E6 |].
      eapply steps_trans; [ | exact R6 ].
      constructor; simpl; try reflexivity; try apply Qle_refl.
      exists []. split; [reflexivity | constructor].
    - destruct (runs_notify_nodemcu false x) as ([] & s6 & E6 & R6).
      exists s6. split; assumption. }
  match goal with
  | |- context [ ?t ] =>
      match t with
      | (if fgt p TEMP_THRESHOLD then _ else _) ?x =>
          destruct (Hn x) as (s6 & E6 & [Nc Ns Nd Nn Nf Nz]);
          replace t with (Some (tt, s6)) by (symmetry; exact E6)
      end
  end.
  simpl in Nc, Ns, Nd, Nn, Nf, Nz.
  exists temps, p, s6. split; [reflexivity |].
  split; [exact Lg |].
  split.
  { rewrite (predict_temperature_value temps s (set_sensor_data temps s2)), Ep.
    reflexivity. }
  split; [ rewrite Ns, Ps; reflexivity |].
  split; [ rewrite Nn, Pn; exact Ng |].
  split; [ rewrite Nd, Pn, Pd, Dg, Ng; reflexivity |].
  split; [ lra |].
  split.
  { destruct Zg as (n1 & e1 & f1), Pz as (n2 & e2 & f2), Nz as (n3 & e3 & f3).
    exists (n3 ++ n2 ++ n1). split.
    - rewrite e3, e2, e1, !app_assoc. reflexivity.
    - rewrite !Forall_app. auto. }
  eexists _, _. rewrite Nf, Pf, Pn, Cg, Ng, <- app_assoc. reflexivity.
Qed.

Lemma pad_to_spec limit start s :
  exists s',
    pad_to limit start s = Some (tt, s') /\
    (clock s - start < limit ->
       s' = note_sleep (limit - (clock s - start))
              (advance (limit - (clock s - start)) s)) /\
    (limit <= clock s - start -> s' = s).
Proof.
  unfold pad_to. unfold_m.
  destruct (flt (clock s - start) limit) eqn:E.
  - apply flt_spec in E. eexists. split; [reflexivity |].
    split; [ reflexivity | intros H; lra ].
  - apply flt_false in E. exists s. split; [reflexivity |].
    split; [ intros H; lra | reflexivity ].
Qed.

Lemma runs_pad_to limit start : runs (pad_to limit start) steps.
Proof.
  intros s. destruct (pad_to_spec limit start s) as (s' & E & Hlt & Hge).
  exists tt, s'. split; [exact E |].
  destruct (Qlt_le_dec (clock s - start) limit) as [H|H].
  - rewrite (Hlt H). apply steps_sleep. lra.
  - rewrite (Hge H). apply steps_refl.
Qed.

Lemma steps_elapses s s' : steps s s' -> elapses s s'.
Proof. intros [c _ _ _ _ z]. split; assumption. Qed.

Lemma elapses_refl s : elapses s s.
Proof.
  split; [ apply Qle_refl | exists []; split; [reflexivity | constructor] ].
Qed.

Lemma elapses_trans s1 s2 s3 : elapses s1 s2 -> elapses s2 s3 -> elapses s1 s3.
Proof.
  intros [c1 (n1 & e1 & f1)] [c2 (n2 & e2 & f2)]. split.
  - eapply Qle_trans; eassumption.
  - exists (n2 ++ n1). split.
    + rewrite e2, e1. apply app_assoc.
    + apply Forall_app. split; assumption.
Qed.

Lemma runs_cycle_work : runs cycle_work elapses.
Proof.
  intros s. destruct (cycle_work_spec s)
    as (temps & p & s' & E & _ & _ & _ & _ & _ & C & Z & _).
  exists (clock s), s'. split; [exact E |]. split; assumption.
Qed.

Lemma cycle_padded s : padded_to 600 cycle_work cycle s.
Proof.
  destruct (cycle_work_spec s) as (temps & p & s1 & E & _).
  destruct (pad_to_spec 600 (clock s) s1) as (s' & Ep & Hlt & Hge).
  exists s1, s'. split; [exact E |].
  split; [ unfold cycle, bind; rewrite E; exact Ep |].
  cbv zeta. split.
  - intros H. rewrite (Hlt H). simpl. repeat split; try lra. 
  - exact Hge.
Qed.

Lemma runs_cycle : runs cycle elapses.
Proof.
  intros s. destruct (runs_cycle_work s) as (t & s1 & E & R).
  destruct (runs_pad_to 600 t s1) as ([] & s' & Ep & Rp).
  exists tt, s'. split; [ unfold cycle, bind; rewrite E; exact Ep |].
  eapply elapses_trans; [ exact R | apply steps_elapses; exact Rp ].
Qed.

Lemma runs_repeat_m n body :
  runs body elapses -> runs (repeat_m n body) elapses.
Proof.
  intros Hb. induction n as [|n IH]; intros s; simpl.
  - exists tt, s. split; [ reflexivity | apply elapses_refl ].
  - destruct (Hb s) as ([] & s1 & E1 & R1). destruct (IH s1) as ([] & s2 & E2 & R2).
    exists tt, s2. unfold bind. rewrite E1. split; [ exact E2 |].
    eapply elapses_trans; eassumption.
Qed.

Lemma hour_work_spec s :
  exists s1, hour_work s = Some (clock s, s1) /\ elapses s s1.
Proof.
  unfold hour_work. unfold_m.
  destruct (runs_repeat_m 6 cycle runs_cycle s) as ([] & s1 & E & R).
  rewrite E. exists s1. split; [ reflexivity | exact R ].
Qed.

Lemma hour_padded s : padded_to 3600 hour_work hour s.
Proof.
  destruct (hour_work_spec s) as (s1 & E & _).
  destruct (pad_to_spec 3600 (clock s) s1) as (s' & Ep & Hlt & Hge).
  exists s1, s'. split; [exact E |].
  split; [ unfold hour, bind; rewrite E; exact Ep |].
  cbv zeta. split.
  - intros H. rewrite (Hlt H). simpl. repeat split; try lra.
  - exact Hge.
Qed.

Lemma runs_hour : runs hour elapses.
Proof.
  intros s. destruct (hour_work_spec s) as (s1 & E & R).
  destruct (runs_pad_to 3600 (clock s) s1) as ([] & s' & Ep & Rp).
  exists tt, s'. split; [ unfold hour, bind; rewrite E; exact Ep |].
  eapply elapses_trans; [ exact R | apply steps_elapses; exact Rp ].
Qed.

(** C8.  The cycle is padded to 600 seconds and the hour of six cycles to
    3600 seconds: a shorter one sleeps exactly the remainder, a longer one
    sleeps nothing and goes on at once. *)
Theorem scheduler_padding s :
  padded_to 600 cycle_work cycle s /\ padded_to 3600 hour_work hour s.
Proof. split; [ apply cycle_padded | apply hour_padded ]. Qed.

(** In a run of any number of hours, no [time.sleep] was asked a negative
    duration: the ticks of the window, the paddings of the cycles and those
    of the hours. *)
Theorem data_collection_cycle_sleeps hours s s' :
  data_collection_cycle hours s = Some (tt, s') ->
  exists new, slept s' = new ++ slept s /\ Forall (fun d => 0 <= d) new.
Proof.
  intros Hrun.
  destruct (runs_repeat_m hours hour runs_hour s) as ([] & s1 & E & R).
  unfold data_collection_cycle in Hrun. rewrite E in Hrun.
  inversion Hrun; subst. apply R.
Qed.

Lemma data_collection_cycle_sleeps_witness :
  exists new,
    slept blind_hour = new ++ slept blind_boot /\
    Forall (fun d => 0 <= d) new.
Proof.
  apply (data_collection_cycle_sleeps 1 blind_boot blind_hour).
  vm_compute. reflexivity.
Defined.

(** ** The history *)

Lemma steps_consistent s s' : steps s s' -> consistent s -> consistent s'.
Proof.
  intros [_ Hs Hd Hn _ _] [H1 H2]. unfold consistent.
  rewrite Hs, Hd, Hn. split; assumption.
Qed.

Lemma boot_consistent t0 px lk : consistent (boot t0 px lk).
Proof. split; reflexivity. Qed.

(** A cycle takes a consistent state to a consistent state and appends the
    record of the next number. *)
Lemma cycle_consistent s :
  consistent s ->
  exists r s',
    cycle s = Some (tt, s') /\
    consistent s' /\
    cycle_count s' = S (cycle_count s) /\
    cycle_data s' = cycle_data s ++ [r] /\
    rec_cycle r = S (cycle_count s).
Proof.
  intros [Hm Hl].
  destruct (cycle_work_spec s) as (temps & p & s1 & E & _ & _ & Hs & Hn & Hd & _).
  destruct (runs_pad_to 600 (clock s) s1) as ([] & s' & Ep & Rp).
  eexists _, s'. split; [ unfold cycle, bind; rewrite E; exact Ep |].
  split; [ apply (steps_consistent s1 s' Rp) |].
  - split.
    + rewrite Hd, Hn, map_app, Hm, seq_S. reflexivity.
    + rewrite Hd, last_snoc, Hs. reflexivity.
  - rewrite (steps_cycle_count _ _ Rp), (steps_cycle_data _ _ Rp).
    split; [ exact Hn |]. split; [ exact Hd | reflexivity ].
Qed.

Lemma cycles_consistent k : forall s,
  consistent s ->
  exists s',
    repeat_m k cycle s = Some (tt, s') /\
    consistent s' /\
    cycle_count s' = (cycle_count s + k)%nat.
Proof.
  induction k as [|k IH]; intros s Hc; simpl.
  - exists s. split; [reflexivity |]. split; [exact Hc | lia].
  - destruct (cycle_consistent s Hc) as (r & s1 & E1 & C1 & N1 & _).
    destruct (IH s1 C1) as (s2 & E2 & C2 & N2).
    exists s2. unfold bind. rewrite E1. split; [exact E2 |].
    split; [exact C2 | lia].
Qed.

Lemma hour_consistent s :
  consistent s ->
  exists s',
    hour s = Some (tt, s') /\
    consistent s' /\
    cycle_count s' = (cycle_count s + 6)%nat.
Proof.
  intros Hc. destruct (cycles_consistent 6 s Hc) as (s1 & E1 & C1 & N1).
  destruct (runs_pad_to 3600 (clock s) s1) as ([] & s' & Ep & Rp).
  exists s'. split.
  - unfold hour, hour_work. unfold_m. rewrite E1. exact Ep.
  - split; [ eapply steps_consistent; eassumption |].
    rewrite (steps_cycle_count _ _ Rp). exact N1.
Qed.

Lemma hours_consistent h : forall s,
  consistent s ->
  exists s',
    repeat_m h hour s = Some (tt, s') /\
    consistent s' /\
    cycle_count s' = (cycle_count s + 6 * h)%nat.
Proof.
  induction h as [|h IH]; intros s Hc; simpl repeat_m.
  - exists s. split; [reflexivity |]. split; [exact Hc | lia].
  - destruct (hour_consistent s Hc) as (s1 & E1 & C1 & N1).
    destruct (IH s1 C1) as (s2 & E2 & C2 & N2).
    exists s2. unfold bind. rewrite E1. split; [exact E2 |].
    split; [exact C2 | lia].
Qed.

(** The scheduler reaches every rest point, and is consistent there. *)
Lemma rest_point_consistent h k s0 :
  consistent s0 ->
  exists s,
    rest_point h k s0 = Some (tt, s) /\
    consistent s /\
    cycle_count s = (cycle_count s0 + 6 * h + k)%nat.
Proof.
  intros Hc. destruct (hours_consistent h s0 Hc) as (s1 & E1 & C1 & N1).
  destruct (cycles_consistent k s1 C1) as (s2 & E2 & C2 & N2).
  exists s2. unfold rest_point, bind. rewrite E1.
  split; [exact E2 |]. split; [exact C2 | lia].
Qed.

Lemma consistent_length s :
  consistent s -> length (cycle_data s) = cycle_count s.
Proof.
  intros [Hm _]. rewrite <- (length_map rec_cycle), Hm. apply length_seq.
Qed.

(** What the status query finds in each phase. *)
Lemma observable_globals s0 ph s :
  consistent s0 ->
  observable s0 ph s ->
  map rec_cycle (cycle_data s) = seq 1 (length (cycle_data s)) /\
  cycle_count s =
    match ph with
    | Resting => length (cycle_data s)
    | _ => S (length (cycle_data s))
    end /\
  match ph with
  | Gathered window => sensor_data s = window
  | _ =>
      match last (cycle_data s) with
      | Some r => rec_avg_temp r = mean_or_zero (sensor_data s)
      | None => sensor_data s = []
      end
  end.
Proof.
  intros H0 Hobs.
  assert (Hrest : forall h k s, rest_point h k s0 = Some (tt, s) -> consistent s).
  { intros h k s1 E. destruct (rest_point_consistent h k s0 H0) as (s2 & E2 & C2 & _).
    congruence. }
  destruct Hobs as [h k s _ E | h k s t s1 _ E Eo | h k s t s1 w s2 _ E Eo Eg].
  - pose proof (Hrest _ _ _ E) as Hc. pose proof (consistent_length s Hc) as Hl.
    destruct Hc as [Hm Hs]. rewrite Hl. auto.
  - pose proof (Hrest _ _ _ E) as Hc. pose proof (consistent_length s Hc) as Hl.
    destruct Hc as [Hm Hs].
    unfold cycle_open in Eo. unfold_m. inversion Eo; subst; clear Eo. simpl.
    rewrite Hl. auto.
  - pose proof (Hrest _ _ _ E) as Hc. pose proof (consistent_length s Hc) as Hl.
    destruct Hc as [Hm Hs].
    unfold cycle_open in Eo. unfold_m. inversion Eo; subst; clear Eo.
    unfold cycle_gather in Eg. unfold_m.
    destruct (gather_data_returns (set_cycle_count (S (cycle_count s)) s))
      as (temps & s3 & Eg' & _ & _ & _ & _ & Dg & Ng & _).
    rewrite Eg' in Eg. inversion Eg; subst; clear Eg. simpl in *.
    rewrite Dg, Ng, Hl. auto.
Qed.

Lemma numbered_gapless (history : list cycle_record) :
  map rec_cycle history = seq 1 (length history) -> gapless history.
Proof.
  intros Hm.
  assert (Hi : forall i r, history !! i = Some r -> rec_cycle r = S i).
  { intros i r Hr.
    assert (Hx : map rec_cycle history !! i = Some (rec_cycle r)).
    { change (map rec_cycle history) with (rec_cycle <$> history).
      rewrite list_lookup_fmap, Hr. reflexivity. }
    rewrite Hm in Hx. apply lookup_seq in Hx. lia. }
  split; [ | split ].
  - intros r Hr. apply Hi in Hr. exact Hr.
  - intros i r r' Hpos Hr Hr'. apply Hi in Hr. apply Hi in Hr'. lia.
  - intros r Hin. apply list_elem_of_In, list_elem_of_lookup in Hin.
    destruct Hin as [i Hr]. apply Hi in Hr. lia.
Qed.

(** C4.  Whenever the history is looked at, its records are numbered from 1
    upwards without a gap. *)
Theorem history_gapless t0 px lk ph s :
  observable (boot t0 px lk) ph s -> gapless (cycle_data s).
Proof.
  intros Hobs. apply numbered_gapless.
  apply (observable_globals _ _ _ (boot_consistent t0 px lk) Hobs).
Qed.

Lemma demo_gathering_observable : observable demo_boot Gathering demo_gathering.
Proof.
  apply (obs_open demo_boot 0 1 demo_rest (clock demo_rest) demo_gathering).
  - lia.
  - vm_compute. reflexivity.
  - vm_compute. reflexivity.
Defined.

Lemma history_gapless_witness : gapless (cycle_data demo_gathering).
Proof.
  apply (history_gapless 0
           (scripted_sensor
              [Pixels 0 (uniform_grid 30); SensorError 0;
               Pixels 0 (uniform_grid 36); Pixels 0 (uniform_grid 37);
               SensorError 0] 30)
           silent_link Gathering demo_gathering).
  exact demo_gathering_observable.
Defined.

(** ** The status query *)

(** At load, before the scheduler has started, the query answers with zeros
    and an empty history. *)
Lemma get_data_boot t0 px lk :
  get_data (boot t0 px lk) =
  {| st_cycle := 0; st_current_avg := 0; st_latest_predicted := 0;
     st_history := [] |}.
Proof. reflexivity. Qed.

Lemma first_gathering_observable : observable demo_boot Gathering first_gathering.
Proof.
  apply (obs_open demo_boot 0 0 demo_boot (clock demo_boot) first_gathering).
  - lia.
  - reflexivity.
  - reflexivity.
Defined.

(** C10, counterexample.  While the first window is being gathered the
    buffer and the history are still empty, and the query reports cycle 1. *)
Lemma get_data_first_cycle_ahead :
  observable demo_boot Gathering first_gathering /\
  sensor_data first_gathering = [] /\
  cycle_data first_gathering = [] /\
  st_cycle (get_data first_gathering) = 1%nat /\
  st_cycle (get_data first_gathering) <> 0%nat.
Proof.
  split; [ exact first_gathering_observable |].
  vm_compute. repeat split. discriminate.
Qed.

(** C10, as the code has it.  Whenever the buffer and the history are both
    empty the query answers with average 0, prediction 0 and an empty
    history; its cycle is the number of cycles started: 0 until line 138 has
    counted the first cycle, 1 from then on. *)
Theorem get_data_empty t0 px lk ph s :
  observable (boot t0 px lk) ph s ->
  sensor_data s = [] ->
  cycle_data s = [] ->
  get_data s =
  {| st_cycle := match ph with Resting => 0 | _ => 1 end;
     st_current_avg := 0; st_latest_predicted := 0; st_history := [] |}.
Proof.
  intros Hobs Hs Hd.
  destruct (observable_globals _ _ _ (boot_consistent t0 px lk) Hobs)
    as (_ & Hc & _).
  unfold get_data. rewrite Hs, Hd, Hc, Hd. destruct ph; reflexivity.
Qed.

Lemma get_data_empty_witness :
  get_data first_gathering =
  {| st_cycle := 1; st_current_avg := 0; st_latest_predicted := 0;
     st_history := [] |}.
Proof.
  apply (get_data_empty 0
           (scripted_sensor
              [Pixels 0 (uniform_grid 30); SensorError 0;
               Pixels 0 (uniform_grid 36); Pixels 0 (uniform_grid 37);
               SensorError 0] 30)
           silent_link Gathering first_gathering).
  - exact first_gathering_observable.
  - reflexivity.
  - reflexivity.
Defined.

(** C7, counterexample.  With one cycle completed and the second one being
    gathered, the query reports cycle 2. *)
Lemma get_data_cycle_ahead :
  observable demo_boot Gathering demo_gathering /\
  length (cycle_data demo_gathering) = 1%nat /\
  st_cycle (get_data demo_gathering) = 2%nat /\
  st_cycle (get_data demo_gathering) <> 1%nat.
Proof.
  split; [ exact demo_gathering_observable |].
  vm_compute. repeat split. discriminate.
Qed.

(** C7, as the code has it.  With N cycles completed (N >= 1) the query
    returns the N records in order; the prediction of the N-th; the mean of
    the window gathered last (0 for an empty one), which is the average of
    the N-th record until the next window is published; and the number of
    cycles started, which is N between two cycles and N + 1 once line 138
    has counted the next one. *)
Theorem get_data_after_cycles t0 px lk ph s N :
  observable (boot t0 px lk) ph s ->
  length (cycle_data s) = N ->
  (1 <= N)%nat ->
  let answer := get_data s in
  st_history answer = cycle_data s /\
  map rec_cycle (st_history answer) = seq 1 N /\
  (exists last_record,
     st_history answer !! (N - 1)%nat = Some last_record /\
     st_latest_predicted answer = rec_predicted_temp last_record /\
     st_current_avg answer =
       match ph with
       | Gathered window => mean_or_zero window
       | _ => rec_avg_temp last_record
       end) /\
  st_cycle answer =
    match ph with
    | Resting => N
    | _ => S N
    end.
Proof.
  intros Hobs HN Hpos.
  destruct (observable_globals _ _ _ (boot_consistent t0 px lk) Hobs)
    as (Hm & Hc & Hw).
  cbv zeta. unfold get_data. simpl.
  split; [ reflexivity |].
  split; [ rewrite Hm, HN; reflexivity |].
  split.
  - destruct (last (cycle_data s)) as [r|] eqn:El.
    + exists r. split.
      * rewrite last_lookup in El. rewrite <- El, HN.
        f_equal. lia.
      * split; [ reflexivity |].
        destruct ph; try (symmetry; exact Hw).
        rewrite Hw. reflexivity.
    + apply last_None in El. rewrite El in HN. simpl in HN. lia.
  - rewrite Hc, HN. destruct ph; reflexivity.
Qed.

Lemma get_data_after_cycles_witness :
  let answer := get_data demo_gathering in
  st_history answer = cycle_data demo_gathering /\
  map rec_cycle (st_history answer) = seq 1 1 /\
  (exists last_record,
     st_history answer !! (1 - 1)%nat = Some last_record /\
     st_latest_predicted answer = rec_predicted_temp last_record /\
     st_current_avg answer = rec_avg_temp last_record) /\
  st_cycle answer = 2%nat.
Proof.
  apply (get_data_after_cycles 0
           (scripted_sensor
              [Pixels 0 (uniform_grid 30); SensorError 0;
               Pixels 0 (uniform_grid 36); Pixels 0 (uniform_grid 37);
               SensorError 0] 30)
           silent_link Gathering demo_gathering 1).
  - exact demo_gathering_observable.
  - vm_compute. reflexivity.
  - lia.
Defined.

(** ** The retention sweep *)

(** More than 30 days of age is more than 2592000 seconds. *)
Lemma file_age_days_gt now mtime :
  30 < file_age_days now mtime <-> days 30 < now - mtime.
Proof.
  unfold file_age_days, days.
  change ((now - mtime) / 86400) with ((now - mtime) * (1 # 86400)).
  split; intros H; lra.
Qed.

Lemma disk_logger_lookup now lvl msg d file :
  files d !! file = None ->
  files (disk_logger now lvl msg d) !! file = None.
Proof.
  intros H. unfold disk_logger. simpl.
  destruct (files d !! LOG_FILE) eqn:El; [ | exact H ].
  destruct (decide (LOG_FILE = file)) as [<- | Hne]; [ congruence |].
  rewrite lookup_insert_ne; assumption.
Qed.

(** The body of the loop on one file: older than 30 days it is deleted (when
    the system lets it be removed); 30 days old or less it is left as it is,
    and nothing else changes. *)
Lemma sweep_file_rule now file mtime d :
  files d !! file = Some mtime ->
  (30 < file_age_days now mtime ->
     file ∉ protected d ->
     files (sweep_file now file d) !! file = None) /\
  (file_age_days now mtime <= 30 ->
     sweep_file now file d = d).
Proof.
  intros Hf. unfold sweep_file. rewrite Hf. split.
  - intros Hold Hfree. apply fgt_spec in Hold. rewrite Hold.
    unfold os_remove. destruct (decide (file ∈ protected d)) as [Hin | _];
      [ contradiction |].
    apply disk_logger_lookup. simpl. apply lookup_delete_eq.
  - intros Hyoung. destruct (fgt (file_age_days now mtime) 30) eqn:E;
      [ | reflexivity ].
    apply fgt_spec in E. lra.
Qed.

Lemma sweep_file_rule_witness :
  files (sweep_file (days 31) CSV_FILE demo_disk) !! CSV_FILE = None /\
  sweep_file (days 29) LOG_FILE demo_disk = demo_disk.
Proof.
  split.
  - apply (sweep_file_rule (days 31) CSV_FILE 0 demo_disk).
    + vm_compute. reflexivity.
    + vm_compute. reflexivity.
    + apply not_elem_of_empty.
  - apply (sweep_file_rule (days 29) LOG_FILE 0 demo_disk).
    + vm_compute. reflexivity.
    + vm_compute. discriminate.
Defined.

(** * Further properties of the code *)

(** ** The controller and its link *)

(** After an exchange on an edge the flag is: down after RESET_DEVICE; after
    THRESHOLD_EXCEEDED, up when the read failed or brought nothing but
    whitespace, and down again when an answer came. *)
Theorem notify_nodemcu_flag exceeded s :
  xorb exceeded (device_active s) = true ->
  (forall took, serial_feed s (serial_used s) <> WriteError took) ->
  exists s',
    notify_nodemcu exceeded s = Some (tt, s') /\
    serial_used s' = S (serial_used s) /\
    device_active s' =
      match serial_feed s (serial_used s) with
      | Line _ text => exceeded && negb (truthy (strip text))
      | _ => exceeded
      end.
Proof.
  intros He Hw.
  destruct (notify_nodemcu_edge exceeded s He Hw) as (s' & R & _ & _ & U & A).
  exists s'. auto.
Qed.

Lemma notify_nodemcu_flag_witness :
  exists s',
    notify_nodemcu true (boot 0 (steady_sensor 36) answering_link) = Some (tt, s') /\
    serial_used s' = 1%nat /\
    device_active s' = true && negb (truthy (strip "OK")).
Proof.
  apply (notify_nodemcu_flag true (boot 0 (steady_sensor 36) answering_link)).
  - reflexivity.
  - intros took. simpl. discriminate.
Defined.

Lemma notify_nodemcu_write_error_witness :
  exists s',
    notify_nodemcu true (boot 0 (steady_sensor 36) (fun _ => WriteError 5))
      = Some (tt, s') /\
    serial_out s' = [] /\
    device_active s' = false /\
    log s' = [] ++ [(ERROR, MsgLinkFailure)].
Proof.
  apply (notify_nodemcu_write_error true
           (boot 0 (steady_sensor 36) (fun _ => WriteError 5)) 5%N).
  - reflexivity.
  - reflexivity.
Defined.

Lemma lstrip_nil l : lstrip l = [] <-> Forall (fun c => isspace c = true) l.
Proof.
  induction l as [|c l IH]; simpl.
  - split; [ constructor | reflexivity ].
  - destruct (isspace c) eqn:E.
    + rewrite IH. split; intros H.
      * constructor; assumption.
      * inversion H; assumption.
    + split; intros H; [ discriminate | ].
      inversion H; congruence.
Qed.

Lemma lstrip_spaces l :
  Forall (fun c => isspace c = true) (lstrip l) <->
  Forall (fun c => isspace c = true) l.
Proof.
  induction l as [|c l IH]; simpl; [ reflexivity |].
  destruct (isspace c) eqn:E; [ | reflexivity ].
  rewrite IH. split; intros H.
  - constructor; assumption.
  - inversion H; assumption.
Qed.

Lemma truthy_of_list l : truthy (string_of_list_ascii l) = false <-> l = [].
Proof.
  destruct l; simpl; split; intros H; try reflexivity; discriminate.
Qed.

(** A response counts as no response exactly when it is made of whitespace
    only (the empty line of a timeout, a bare newline, blanks). *)
Theorem blank_response text :
  truthy (strip text) = false <->
  Forall (fun c => isspace c = true) (list_ascii_of_string text).
Proof.
  unfold strip. rewrite truthy_of_list.
  rewrite <- (rev_involutive []). simpl rev at 2.
  split.
  - intros H. apply (f_equal (@rev ascii)) in H. rewrite rev_involutive in H.
    simpl in H. apply lstrip_nil in H.
    apply Forall_rev in H. rewrite rev_involutive in H.
    apply lstrip_spaces. exact H.
  - intros H. f_equal. apply lstrip_nil.
    apply Forall_rev. apply lstrip_spaces. exact H.
Qed.

(** ** The window and its row *)

(** A window whose first read of the sensor raises: no sample, the failure
    logged right after the opening line, and a row with average 0 and the
    breach flag down. *)
Theorem gather_data_first_read_fails s took :
  pixels_feed s (pixels_read s) = SensorError took ->
  exists s',
    gather_data s = Some ([], s') /\
    clock s' = clock s + ms took /\
    pixels_read s' = S (pixels_read s) /\
    csv_file s' =
      csv_file s ++
      [{| row_timestamp := clock s'; row_cycle := cycle_count s;
          row_average := 0; row_predicted := None;
          row_breach := Some false |}] /\
    log s' =
      log s ++ [(INFO, MsgGatherStart (cycle_count s))] ++ [(ERROR, MsgGatherFailure)].
Proof.
  intros Hf. unfold gather_data. rewrite gather_data_within_unfold.
  change 601%nat with (S 600). rewrite gather_loop_unfold.
  destruct (flt _ 600) eqn:Ec.
  - unfold sensor_pixels. simpl pixels_feed. simpl pixels_read. rewrite Hf.
    eexists. split; [ reflexivity |]. simpl.
    rewrite <- app_assoc. repeat split.
  - apply flt_false in Ec. simpl in Ec. lra.
Qed.

Lemma gather_data_first_read_fails_witness :
  exists s',
    gather_data (boot 0 (fun _ => SensorError 20) silent_link) = Some ([], s') /\
    clock s' = 0 + ms 20 /\
    pixels_read s' = 1%nat /\
    csv_file s' =
      [] ++
      [{| row_timestamp := clock s'; row_cycle := 0;
          row_average := 0; row_predicted := None;
          row_breach := Some false |}] /\
    log s' = [] ++ [(INFO, MsgGatherStart 0)] ++ [(ERROR, MsgGatherFailure)].
Proof.
  apply (gather_data_first_read_fails
           (boot 0 (fun _ => SensorError 20) silent_link) 20%N).
  reflexivity.
Defined.

Lemma np_sum_le l T :
  Forall (fun t => t <= T) l ->
  np_sum l <= T * inject_Z (Z.of_nat (length l)).
Proof.
  induction 1 as [|t l Ht _ IH].
  - change (0 <= T * 0). lra.
  - cbn [np_sum fold_right length]. fold (np_sum l).
    rewrite inject_succ. lra.
Qed.

Lemma np_sum_gt l T :
  l <> [] ->
  Forall (fun t => T < t) l ->
  T * inject_Z (Z.of_nat (length l)) < np_sum l.
Proof.
  intros Hne H. induction H as [|t l Ht Hl IH]; [ congruence |].
  cbn [np_sum fold_right length]. fold (np_sum l).
  rewrite inject_succ.
  destruct l as [|t' l'].
  - change (T * (0 + 1) < t + 0). lra.
  - assert (Hx : T * inject_Z (Z.of_nat (length (t' :: l'))) < np_sum (t' :: l'))
      by (apply IH; discriminate).
    lra.
Qed.

Lemma length_positive {A} (l : list A) :
  l <> [] -> 0 < inject_Z (Z.of_nat (length l)).
Proof.
  intros Hne. destruct l; [ congruence |].
  rewrite <- (Zlt_Qlt 0). simpl. lia.
Qed.

(** The breach flag of a row is about the mean of its window: it is down
    when no sample is above the threshold and up when every sample of a
    window with samples is. *)
Theorem breach_flag_of_window temperatures :
  (Forall (fun t => t <= TEMP_THRESHOLD) temperatures ->
     fgt (mean_or_zero temperatures) TEMP_THRESHOLD = false) /\
  (temperatures <> [] ->
     Forall (fun t => TEMP_THRESHOLD < t) temperatures ->
     fgt (mean_or_zero temperatures) TEMP_THRESHOLD = true).
Proof.
  split.
  - intros H. destruct temperatures as [|t l]; [ reflexivity |].
    unfold mean_or_zero. apply not_true_is_false. intros Hg.
    apply fgt_spec in Hg. unfold np_mean in Hg.
    pose proof (np_sum_le _ _ H) as Hs.
    assert (Hp : 0 < inject_Z (Z.of_nat (length (t :: l))))
      by (apply length_positive; discriminate).
    apply Qlt_not_le in Hg. apply Hg.
    apply Qle_shift_div_r; assumption.
  - intros Hne H. destruct temperatures as [|t l]; [ congruence |].
    unfold mean_or_zero. apply fgt_spec. unfold np_mean.
    apply Qlt_shift_div_l.
    + apply length_positive. discriminate.
    + apply np_sum_gt; assumption.
Qed.

Lemma breach_flag_of_window_witness :
  fgt (mean_or_zero [30; 35; 34]) TEMP_THRESHOLD = false /\
  fgt (mean_or_zero [36; 40]) TEMP_THRESHOLD = true.
Proof.
  split.
  - apply (breach_flag_of_window [30; 35; 34]).
    repeat constructor; vm_compute; discriminate.
  - apply (breach_flag_of_window [36; 40]).
    + discriminate.
    + repeat constructor; vm_compute; reflexivity.
Defined.

(** ** The count of cycles *)

(** After any number of whole hours the counter is six times that number
    and the history holds the records 1, 2, ... up to it. *)
Theorem data_collection_cycle_counts hours t0 px lk :
  exists s,
    data_collection_cycle hours (boot t0 px lk) = Some (tt, s) /\
    cycle_count s = (6 * hours)%nat /\
    map rec_cycle (cycle_data s) = seq 1 (6 * hours) /\
    st_cycle (get_data s) = length (st_history (get_data s)).
Proof.
  destruct (hours_consistent hours (boot t0 px lk) (boot_consistent t0 px lk))
    as (s & E & C & N).
  exists s. split; [ exact E |].
  change (cycle_count s = (6 * hours)%nat) in N.
  split; [ exact N |].
  split; [ rewrite <- N; apply C |].
  simpl. symmetry. apply consistent_length. exact C.
Qed.

(** ** More on the retention sweep *)

Lemma two_files : CSV_FILE <> LOG_FILE.
Proof. discriminate. Qed.

Lemma disk_logger_other now lvl msg d f :
  f <> LOG_FILE ->
  files (disk_logger now lvl msg d) !! f = files d !! f.
Proof.
  intros Hne. unfold disk_logger. simpl.
  destruct (files d !! LOG_FILE); [ | reflexivity ].
  apply lookup_insert_ne. congruence.
Qed.

Lemma sweep_file_none now file d f :
  files d !! f = None -> files (sweep_file now file d) !! f = None.
Proof.
  intros Hn. unfold sweep_file.
  destruct (files d !! file) as [mtime|]; [ | exact Hn ].
  destruct (fgt (file_age_days now mtime) 30); [ | exact Hn ].
  unfold os_remove. destruct (decide (file ∈ protected d)).
  - apply disk_logger_lookup. exact Hn.
  - apply disk_logger_lookup. simpl.
    destruct (decide (file = f)) as [-> | Hne].
    + apply lookup_delete_eq.
    + rewrite lookup_delete_ne; assumption.
Qed.

Lemma sweep_file_other now file d f :
  f <> file -> f <> LOG_FILE ->
  files (sweep_file now file d) !! f = files d !! f.
Proof.
  intros Hf Hl. unfold sweep_file.
  destruct (files d !! file) as [mtime|]; [ | reflexivity ].
  destruct (fgt (file_age_days now mtime) 30); [ | reflexivity ].
  unfold os_remove. destruct (decide (file ∈ protected d)).
  - apply disk_logger_other. exact Hl.
  - rewrite disk_logger_other by exact Hl. simpl.
    apply lookup_delete_ne. congruence.
Qed.

(** The sweeps never create a file and never touch a file other than the
    data file and the log file. *)
Theorem cleanup_files_confined sweeps : forall now d f,
  (files d !! f = None -> files (cleanup_files sweeps now d) !! f = None) /\
  (f <> CSV_FILE -> f <> LOG_FILE ->
     files (cleanup_files sweeps now d) !! f = files d !! f).
Proof.
  induction sweeps as [|n IH]; intros now d f; cbn [cleanup_files].
  - split; auto.
  - destruct (IH (now + 86400) (cleanup_sweep now d) f) as [IH1 IH2].
    unfold cleanup_sweep in *. cbn [fold_left] in *. split.
    + intros Hn. apply IH1. apply sweep_file_none, sweep_file_none. exact Hn.
    + intros Hc Hl. rewrite IH2 by assumption.
      rewrite !sweep_file_other by assumption. reflexivity.
Qed.

Lemma cleanup_files_confined_witness :
  files (cleanup_files 3 (days 40) demo_disk) !! "notes.txt"%string = None /\
  files (cleanup_files 3 (days 40) demo_disk) !! "notes.txt"%string
  = files demo_disk !! "notes.txt"%string.
Proof.
  split.
  - apply (proj1 (cleanup_files_confined 3 (days 40) demo_disk "notes.txt"%string)).
    vm_compute. reflexivity.
  - apply (proj2 (cleanup_files_confined 3 (days 40) demo_disk "notes.txt"%string));
      discriminate.
Defined.

(** A file that is old enough but that the system refuses to remove stays,
    and the refusal is logged. *)
Theorem sweep_file_refused now file mtime d :
  files d !! file = Some mtime ->
  30 < file_age_days now mtime ->
  file ∈ protected d ->
  is_Some (files (sweep_file now file d) !! file) /\
  disk_log (sweep_file now file d) = disk_log d ++ [(ERROR, MsgDeleteFailure file)].
Proof.
  intros Hf Hold Hp. unfold sweep_file. rewrite Hf.
  apply fgt_spec in Hold. rewrite Hold.
  unfold os_remove. destruct (decide (file ∈ protected d)); [ | contradiction ].
  split; [ | reflexivity ].
  unfold disk_logger. simpl.
  destruct (files d !! LOG_FILE) eqn:El.
  - destruct (decide (LOG_FILE = file)) as [<- | Hne].
    + rewrite lookup_insert_eq. eauto.
    + rewrite lookup_insert_ne by exact Hne. rewrite Hf. eauto.
  - rewrite Hf. eauto.
Qed.

Lemma sweep_file_refused_witness :
  let d := {| files := files demo_disk; protected := {[ CSV_FILE ]};
              disk_log := [] |} in
  is_Some (files (sweep_file (days 31) CSV_FILE d) !! CSV_FILE) /\
  disk_log (sweep_file (days 31) CSV_FILE d)
  = [] ++ [(ERROR, MsgDeleteFailure CSV_FILE)].
Proof.
  apply (sweep_file_refused (days 31) CSV_FILE 0
           {| files := files demo_disk; protected := {[ CSV_FILE ]};
              disk_log := [] |}).
  - vm_compute. reflexivity.
  - vm_compute. reflexivity.
  - simpl. set_solver.
Defined.

(** A sweep that finds the data file older than 30 days writes to the log,
    which renews the log file: the log file is then kept by that sweep
    however old it was. *)
Theorem cleanup_sweep_keeps_log now mtime d :
  files d !! CSV_FILE = Some mtime ->
  30 < file_age_days now mtime ->
  is_Some (files d !! LOG_FILE) ->
  files (cleanup_sweep now d) !! LOG_FILE = Some now.
Proof.
  intros Hc Hold [m Hl]. unfold cleanup_sweep. simpl.
  assert (H1 : files (sweep_file now CSV_FILE d) !! LOG_FILE = Some now).
  { unfold sweep_file. rewrite Hc. apply fgt_spec in Hold. rewrite Hold.
    unfold os_remove. destruct (decide (CSV_FILE ∈ protected d)).
    - unfold disk_logger. simpl. rewrite Hl. apply lookup_insert_eq.
    - unfold disk_logger. simpl.
      rewrite lookup_delete_ne by exact two_files. rewrite Hl.
      apply lookup_insert_eq. }
  unfold sweep_file at 1. rewrite H1.
  destruct (fgt (file_age_days now now) 30) eqn:E; [ | exact H1 ].
  apply fgt_spec in E. unfold file_age_days in E.
  change ((now - now) / 86400) with ((now - now) * (1 # 86400)) in E. lra.
Qed.

Lemma cleanup_sweep_keeps_log_witness :
  files (cleanup_sweep (days 31) demo_disk) !! LOG_FILE = Some (days 31).
Proof.
  apply (cleanup_sweep_keeps_log (days 31) 0 demo_disk).
  - vm_compute. reflexivity.
  - vm_compute. reflexivity.
  - exists 0. vm_compute. reflexivity.
Defined.

(** *** The rule of a whole sweep *)








(** ** A window without incident *)

Lemma gather_loop_steady grid fuel : forall start_time temperatures s,
  let m := np_mean (concat grid) in
  clock s - start_time == 600 - inject_Z (Z.of_nat fuel) ->
  (forall i, (pixels_read s <= i)%nat -> pixels_feed s i = Pixels 0 grid) ->
  device_active s = fgt m TEMP_THRESHOLD ->
  exists s',
    gather_loop (S fuel) start_time temperatures s
      = Some ((temperatures ++ repeat m fuel, false), s') /\
    clock s' - start_time == 600 /\
    pixels_read s' = (pixels_read s + fuel)%nat /\
    serial_out s' = serial_out s /\
    device_active s' = device_active s /\
    cycle_count s' = cycle_count s.
Proof.
  induction fuel as [|fuel IH]; intros start temps s m Hc Hf Hd;
    rewrite gather_loop_unfold.
  - change (inject_Z (Z.of_nat 0)) with 0 in Hc.
    destruct (flt (clock s - start) 600) eqn:Ec.
    + apply flt_spec in Ec. lra.
    + exists s. rewrite app_nil_r. repeat split; try reflexivity; try lia. lra.
  - rewrite inject_succ in Hc.
    assert (Hpos : 0 <= inject_Z (Z.of_nat fuel)).
    { rewrite <- (Zle_Qle 0). lia. }
    destruct (flt (clock s - start) 600) eqn:Ec.
    2: { apply flt_false in Ec. lra. }
    unfold sensor_pixels. rewrite (Hf (pixels_read s)) by lia.
    cbv zeta. fold m.
    set (s1 := next_pixels (advance (ms 0) s)).
    assert (Hn : exists s2,
               ((if fgt m TEMP_THRESHOLD
                 then logger WARNING (MsgExceeded m) ;;; notify_nodemcu true
                 else notify_nodemcu false) ;;; time_sleep 1) s1 = Some (tt, s2) /\
               clock s2 = clock s + ms 0 + 1 /\
               pixels_read s2 = S (pixels_read s) /\
               pixels_feed s2 = pixels_feed s /\
               serial_out s2 = serial_out s /\
               device_active s2 = device_active s /\
               cycle_count s2 = cycle_count s).
    { unfold bind at 1. destruct (fgt m TEMP_THRESHOLD) eqn:Em.
      - unfold bind at 1. unfold logger at 1, modify.
        rewrite notify_nodemcu_level by (simpl; rewrite Hd; reflexivity).
        eexists. split; [ reflexivity |]. simpl. repeat split.
      - rewrite notify_nodemcu_level by (simpl; rewrite Hd; reflexivity).
        eexists. split; [ reflexivity |]. simpl. repeat split. }
    destruct Hn as (s2 & E2 & C2 & P2 & F2 & O2 & A2 & N2).
    rewrite E2.
    destruct (IH start (temps ++ [m]) s2) as (s' & E' & C' & P' & O' & A' & N').
    + rewrite C2. change (ms 0) with (0 # 1000). lra.
    + intros i Hi. rewrite F2. apply Hf. lia.
    + rewrite A2. exact Hd.
    + exists s'. split.
      * rewrite E'. rewrite <- app_assoc. reflexivity.
      * repeat split; try congruence. lia.
Qed.

(** With a sensor that answers at once with the same grid and no edge of the
    breach condition to report, the window holds exactly 600 samples, lasts
    exactly 600 seconds and sends nothing. *)
Theorem gather_data_full_window s grid :
  (forall i, (pixels_read s <= i)%nat -> pixels_feed s i = Pixels 0 grid) ->
  device_active s = fgt (np_mean (concat grid)) TEMP_THRESHOLD ->
  exists s',
    gather_data s = Some (repeat (np_mean (concat grid)) 600, s') /\
    clock s' == clock s + 600 /\
    pixels_read s' = (pixels_read s + 600)%nat /\
    serial_out s' = serial_out s.
Proof.
  intros Hf Hd. unfold gather_data. rewrite gather_data_within_unfold.
  change 601%nat with (S 600).
  destruct (gather_loop_steady grid 600 (clock s) []
              (add_log (INFO, MsgGatherStart (cycle_count s)) s))
    as (s' & E & C & P & O & _).
  - change (clock s - clock s == 600 - 600). lra.
  - exact Hf.
  - exact Hd.
  - rewrite E. clear E. cbv zeta. eexists. split; [ reflexivity |].
    cbn [clock pixels_read serial_out add_row add_log] in *.
    split; [ lra |]. split; assumption.
Qed.

Lemma gather_data_full_window_witness :
  exists s',
    gather_data (boot 0 (steady_sensor 30) silent_link)
      = Some (repeat (np_mean (concat (uniform_grid 30))) 600, s') /\
    clock s' == 0 + 600 /\
    pixels_read s' = (0 + 600)%nat /\
    serial_out s' = [].
Proof.
  apply (gather_data_full_window (boot 0 (steady_sensor 30) silent_link)
           (uniform_grid 30)).
  - intros i _. reflexivity.
  - vm_compute. reflexivity.
Defined.

(** ** The live picture *)

Lemma fold_Qmin_spec rest : forall x,
  let lo := fold_left Qmin rest x in
  Forall (fun v => lo <= v) (x :: rest) /\ In lo (x :: rest).
Proof.
  induction rest as [|y rest IH]; intros x; cbn [fold_left].
  - split; [ repeat constructor; apply Qle_refl | left; reflexivity ].
  - destruct (IH (Qmin x y)) as [Hall Hin]. cbv zeta. split.
    + inversion Hall as [|? ? Hm Hrest]; subst.
      constructor; [ | constructor; [ | exact Hrest ] ].
      * eapply Qle_trans; [ exact Hm | apply Q.le_min_l ].
      * eapply Qle_trans; [ exact Hm | apply Q.le_min_r ].
    + destruct Hin as [Hin | Hin].
      * assert (Hd : Qmin x y = x \/ Qmin x y = y)
          by (unfold Qmin, GenericMinMax.gmin; destruct (x ?= y); auto).
        destruct Hd as [E | E].
        -- left. etransitivity; [ symmetry; exact E | exact Hin ].
        -- right. left. etransitivity; [ symmetry; exact E | exact Hin ].
      * right. right. exact Hin.
Qed.

Lemma fold_Qmax_spec rest : forall x,
  let hi := fold_left Qmax rest x in
  Forall (fun v => v <= hi) (x :: rest) /\ In hi (x :: rest).
Proof.
  induction rest as [|y rest IH]; intros x; cbn [fold_left].
  - split; [ repeat constructor; apply Qle_refl | left; reflexivity ].
  - destruct (IH (Qmax x y)) as [Hall Hin]. cbv zeta. split.
    + inversion Hall as [|? ? Hm Hrest]; subst.
      constructor; [ | constructor; [ | exact Hrest ] ].
      * eapply Qle_trans; [ apply Q.le_max_l | exact Hm ].
      * eapply Qle_trans; [ apply Q.le_max_r | exact Hm ].
    + destruct Hin as [Hin | Hin].
      * assert (Hd : Qmax x y = x \/ Qmax x y = y)
          by (unfold Qmax, GenericMinMax.gmax; destruct (x ?= y); auto).
        destruct Hd as [E | E].
        -- left. etransitivity; [ symmetry; exact E | exact Hin ].
        -- right. left. etransitivity; [ symmetry; exact E | exact Hin ].
      * right. right. exact Hin.
Qed.

Lemma astype_uint8_floor v :
  0 <= v -> v <= 255 -> astype_uint8 v = Qfloor v /\ (0 <= Qfloor v <= 255)%Z.
Proof.
  intros H0 H255.
  assert (Hb : (0 <= Qfloor v <= 255)%Z).
  { split.
    - change 0%Z with (Qfloor 0). apply Qfloor_resp_le. exact H0.
    - change 255%Z with (Qfloor 255). apply Qfloor_resp_le. exact H255. }
  split; [ | exact Hb ].
  unfold astype_uint8. destruct v as [n d]. simpl in *.
  assert (Hn : (0 <= n)%Z).
  { unfold Qle in H0. simpl in H0. lia. }
  rewrite Z.quot_div_nonneg by lia.
  apply Z.mod_small. lia.
Qed.

(** A grid that is not uniform is stretched over the whole range of a
    byte, cell by cell: the picture has the shape of the grid, every pixel
    lands in 0..255, a hotter cell is never darker than a colder one, every
    cell at the minimum (there is one) becomes 0 and every cell at the
    maximum (there is one) becomes 255. *)
Theorem normalize_frame_range (pixels : list (list Q)) lo hi :
  np_min (concat pixels) = Some lo ->
  np_max (concat pixels) = Some hi ->
  lo < hi ->
  exists pixel : Q -> Z,
    normalize_frame pixels = Some (map (map pixel) pixels) /\
    In lo (concat pixels) /\
    In hi (concat pixels) /\
    (forall v, In v (concat pixels) ->
       (0 <= pixel v <= 255)%Z /\
       (v == lo -> pixel v = 0%Z) /\
       (v == hi -> pixel v = 255%Z)) /\
    (forall v w, In v (concat pixels) -> In w (concat pixels) ->
       v <= w -> (pixel v <= pixel w)%Z).
Proof.
  intros Hlo Hhi Hlt. unfold normalize_frame. rewrite Hlo, Hhi.
  exists (fun v => astype_uint8 ((v - lo) / (hi - lo) * 255)).
  split; [ reflexivity |].
  destruct (concat pixels) as [|x rest] eqn:Ec; [ discriminate |].
  simpl in Hlo, Hhi. injection Hlo as Elo. injection Hhi as Ehi.
  destruct (fold_Qmin_spec rest x) as [Hge Hinlo].
  destruct (fold_Qmax_spec rest x) as [Hle Hinhi].
  cbv zeta in Hge, Hinlo, Hle, Hinhi.
  rewrite Elo in Hge, Hinlo. rewrite Ehi in Hle, Hinhi.
  rewrite List.Forall_forall in Hge, Hle.
  assert (Hd : 0 < hi - lo) by lra.
  assert (Hq : forall v, lo <= v -> v <= hi ->
                 0 <= (v - lo) / (hi - lo) * 255 /\ (v - lo) / (hi - lo) * 255 <= 255).
  { intros v H1 H2.
    assert (Hr0 : 0 <= (v - lo) / (hi - lo)).
    { apply Qle_shift_div_l; [ exact Hd | lra ]. }
    assert (Hr1 : (v - lo) / (hi - lo) <= 1).
    { apply Qle_shift_div_r; [ exact Hd | lra ]. }
    split; lra. }
  split; [ exact Hinlo |]. split; [ exact Hinhi |]. split.
  - intros v Hv.
    destruct (Hq v (Hge v Hv) (Hle v Hv)) as [Q0 Q1].
    destruct (astype_uint8_floor _ Q0 Q1) as [E B]. rewrite E.
    split; [ exact B |]. split; intros Hx.
    + assert (Ez : (v - lo) / (hi - lo) * 255 == 0) by (rewrite Hx; field; lra).
      rewrite Ez. reflexivity.
    + assert (Ez : (v - lo) / (hi - lo) * 255 == 255) by (rewrite Hx; field; lra).
      rewrite Ez. reflexivity.
  - intros v w Hv Hw Hvw.
    destruct (Hq v (Hge v Hv) (Hle v Hv)) as [V0 V1].
    destruct (Hq w (Hge w Hw) (Hle w Hw)) as [W0 W1].
    destruct (astype_uint8_floor _ V0 V1) as [Ev _].
    destruct (astype_uint8_floor _ W0 W1) as [Ew _].
    rewrite Ev, Ew. apply Qfloor_resp_le.
    apply Qmult_le_compat_r; [ | lra ].
    unfold Qdiv. apply Qmult_le_compat_r; [ lra |].
    apply Qlt_le_weak, Qinv_lt_0_compat. exact Hd.
Qed.

Lemma normalize_frame_range_witness :
  exists pixel : Q -> Z,
    normalize_frame [[20; 25]; [30; 22]]
      = Some (map (map pixel) [[20; 25]; [30; 22]]) /\
    In 20 (concat [[20; 25]; [30; 22]]) /\
    In 30 (concat [[20; 25]; [30; 22]]) /\
    (forall v, In v (concat [[20; 25]; [30; 22]]) ->
       (0 <= pixel v <= 255)%Z /\
       (v == 20 -> pixel v = 0%Z) /\
       (v == 30 -> pixel v = 255%Z)) /\
    (forall v w, In v (concat [[20; 25]; [30; 22]]) ->
       In w (concat [[20; 25]; [30; 22]]) ->
       v <= w -> (pixel v <= pixel w)%Z).
Proof.
  apply (normalize_frame_range [[20; 25]; [30; 22]] 20 30).
  - reflexivity.
  - reflexivity.
  - reflexivity.
Defined.

(** ** The fit on a window that lies on a line *)

Lemma dot_cons x u y v : dot (x :: u) (y :: v) = x * y + dot u v.
Proof. reflexivity. Qed.

Lemma np_sum_cons x l : np_sum (x :: l) = x + np_sum l.
Proof. reflexivity. Qed.

Lemma np_sum_line a b X :
  np_sum (map (fun x => a * x + b) X)
  == a * np_sum X + b * inject_Z (Z.of_nat (length X)).
Proof.
  induction X as [|x X IH].
  - change (0 == a * 0 + b * 0). ring.
  - cbn [map length]. rewrite !np_sum_cons, IH, inject_succ. ring.
Qed.

Lemma dot_line a b X :
  dot X (map (fun x => a * x + b) X) == a * dot X X + b * np_sum X.
Proof.
  induction X as [|x X IH].
  - change (0 == a * 0 + b * 0). ring.
  - cbn [map]. rewrite !dot_cons, np_sum_cons, IH. ring.
Qed.

Lemma dot_shift p q X : forall y,
  length X = length y ->
  dot (map (fun x => x - p) X) (map (fun v => v - q) y)
  == dot X y - p * np_sum y - q * np_sum X
     + p * q * inject_Z (Z.of_nat (length X)).
Proof.
  induction X as [|x X IH]; intros [|v y] Hl; try discriminate.
  - change (0 == 0 - p * 0 - q * 0 + p * q * 0). ring.
  - cbn [map length]. rewrite !dot_cons, !np_sum_cons, inject_succ.
    rewrite IH by (simpl in Hl; lia). ring.
Qed.

Lemma dot_self_nonneg u : 0 <= dot u u.
Proof.
  induction u as [|x u IH].
  - apply Qle_refl.
  - rewrite dot_cons. assert (Hx : 0 <= x * x) by nra. lra.
Qed.

Lemma dot_self_zero u :
  dot u u == 0 -> Forall (fun x => x == 0) u.
Proof.
  induction u as [|x u IH]; intros H; [ constructor |].
  rewrite dot_cons in H.
  assert (Hx : 0 <= x * x) by nra.
  pose proof (dot_self_nonneg u) as Hu.
  assert (Hxx : x * x == 0) by lra.
  assert (Huu : dot u u == 0) by lra.
  constructor; [ | apply IH; exact Huu ].
  apply Qmult_integral in Hxx. destruct Hxx; assumption.
Qed.

(** The indices of a window with two samples or more are not all equal, so
    their centred column is not null. *)
Lemma arange_spread n :
  (2 <= n)%nat ->
  let X := arange n in
  ~ dot (map (fun x => x - np_mean X) X) (map (fun x => x - np_mean X) X) == 0.
Proof.
  intros Hn X H. apply dot_self_zero in H.
  destruct n as [|[|k]]; try lia.
  subst X. unfold arange in H. cbn [seq map] in H.
  set (m := np_mean _) in H.
  inversion H as [|? ? H0 H']; subst. inversion H' as [|? ? H1 _]; subst.
  change (inject_Z (Z.of_nat 0)) with 0 in H0.
  change (inject_Z (Z.of_nat 1)) with 1 in H1. lra.
Qed.

(** On samples that lie on a line over abscissas that are not all equal,
    the fit is that line. *)
Lemma fit_on_line X a b model :
  (let xc := map (fun x => x - np_mean X) X in ~ dot xc xc == 0) ->
  fit X (map (fun x => a * x + b) X) = Some model ->
  coef_ model == a /\ intercept_ model == b.
Proof.
  intros Hs Hfit. cbv zeta in Hs. unfold fit in Hfit.
  destruct X as [|x0 X0] eqn:EX; [ discriminate |]. rewrite <- EX in *.
  inversion Hfit as [Hm]. clear Hfit Hm. cbn [coef_ intercept_].
  set (y := map (fun x => a * x + b) X).
  set (n := inject_Z (Z.of_nat (length X))).
  assert (Hn : 0 < n).
  { unfold n. apply length_positive. rewrite EX. discriminate. }
  assert (Hy : np_sum y == a * np_sum X + b * n) by apply np_sum_line.
  assert (Hxy : dot X y == a * dot X X + b * np_sum X) by apply dot_line.
  assert (Hly : length X = length y) by (unfold y; rewrite length_map; reflexivity).
  assert (Hcxx : dot (map (fun x => x - np_mean X) X) (map (fun x => x - np_mean X) X)
                 == dot X X - np_sum X * np_sum X / n).
  { rewrite dot_shift by reflexivity. unfold np_mean. fold n. field. lra. }
  assert (Hcxy : dot (map (fun x => x - np_mean X) X) (map (fun v => v - np_mean y) y)
                 == a * (dot X X - np_sum X * np_sum X / n)).
  { rewrite dot_shift by exact Hly. unfold np_mean. rewrite <- Hly. fold n.
    rewrite Hxy, Hy. field. lra. }
  assert (Hcoef : lstsq (map (fun x => x - np_mean X) X) (map (fun v => v - np_mean y) y)
                  == a).
  { unfold lstsq.
    destruct (Qeq_bool _ 0) eqn:Eb.
    - apply Qeq_bool_iff in Eb. contradiction.
    - rewrite Hcxy, Hcxx. field. split; [ lra |].
      intros Hz. apply Hs. rewrite Hcxx.
      assert (Hq : dot X X - np_sum X * np_sum X / n
                   == (dot X X * n - np_sum X * np_sum X) / n) by (field; lra).
      rewrite Hq, Hz. field. lra. }
  split; [ exact Hcoef |].
  rewrite Hcoef. unfold np_mean. rewrite <- Hly. fold n. rewrite Hy. field. lra.
Qed.

(** A window whose samples lie on a line (two samples or more) is
    extrapolated on that line, 600 indices past its end; a flat window is
    forecast at its own level. *)
Theorem predict_temperature_on_line a b n s :
  (2 <= n)%nat ->
  exists p,
    predict_temperature (map (fun x => a * x + b) (arange n)) s = Some (p, s) /\
    p == a * inject_Z (Z.of_nat (n + 600)) + b.
Proof.
  intros Hn. unfold predict_temperature.
  assert (Hlen : length (map (fun x => a * x + b) (arange n)) = n).
  { unfold arange. rewrite !length_map. apply length_seq. }
  rewrite Hlen.
  destruct (fit (arange n) (map (fun x => a * x + b) (arange n))) as [model|] eqn:Ef.
  - destruct (fit_on_line (arange n) a b model (arange_spread n Hn) Ef) as [Hc Hi].
    eexists. split; [ reflexivity |].
    unfold predict. rewrite Hc, Hi. ring.
  - unfold fit in Ef. destruct n as [|k]; [ lia |].
    unfold arange in Ef. cbn [seq map] in Ef. discriminate.
Qed.

Lemma predict_temperature_on_line_witness :
  exists p,
    predict_temperature (map (fun x => (1 # 100) * x + 30) (arange 3))
      (boot 0 (steady_sensor 30) silent_link)
    = Some (p, boot 0 (steady_sensor 30) silent_link) /\
    p == (1 # 100) * inject_Z (Z.of_nat (3 + 600)) + 30.
Proof.
  apply (predict_temperature_on_line (1 # 100) 30 3
           (boot 0 (steady_sensor 30) silent_link)).
  lia.
Defined.

(** ** What a cycle leaves behind *)

(** A window that has returned: at most 600 samples, one row, the globals
    untouched, and 600 seconds spent unless a failure, logged last, cut it
    short. *)
Theorem gather_data_window s temperatures s' :
  gather_data s = Some (temperatures, s') ->
  (length temperatures <= 600)%nat /\
  csv_file s' =
    csv_file s ++
    [{| row_timestamp := clock s'; row_cycle := cycle_count s;
        row_average := mean_or_zero temperatures;
        row_predicted := None;
        row_breach := Some (fgt (mean_or_zero temperatures) TEMP_THRESHOLD) |}] /\
  sensor_data s' = sensor_data s /\
  cycle_data s' = cycle_data s /\
  cycle_count s' = cycle_count s /\
  (600 <= clock s' - clock s \/
   exists before, log s' = before ++ [(ERROR, MsgGatherFailure)]).
Proof.
  intros Hrun.
  destruct (gather_data_returns s)
    as (temps & s1 & E & L & C & _ & S & D & N & _ & W).
  rewrite E in Hrun.
  assert (Ht : temps = temperatures) by congruence.
  assert (Hs : s1 = s') by congruence.
  rewrite <- Ht, <- Hs. auto 10.
Qed.

Lemma gather_data_window_witness :
  let s := boot 0 (fun _ => SensorError 20) silent_link in
  let s' := final (gather_data s) s in
  (length (@nil Q) <= 600)%nat /\
  csv_file s' =
    csv_file s ++
    [{| row_timestamp := clock s'; row_cycle := cycle_count s;
        row_average := mean_or_zero [];
        row_predicted := None;
        row_breach := Some (fgt (mean_or_zero []) TEMP_THRESHOLD) |}] /\
  sensor_data s' = sensor_data s /\
  cycle_data s' = cycle_data s /\
  cycle_count s' = cycle_count s /\
  (600 <= clock s' - clock s \/
   exists before, log s' = before ++ [(ERROR, MsgGatherFailure)]).
Proof.
  apply (gather_data_window (boot 0 (fun _ => SensorError 20) silent_link) []
           (final (gather_data (boot 0 (fun _ => SensorError 20) silent_link))
              (boot 0 (fun _ => SensorError 20) silent_link))).
  vm_compute. reflexivity.
Defined.

(** A cycle that has completed has published its window, appended to the
    history the one record that the status query then reports as current,
    and written two rows numbered with the cycle to the data file. *)
Theorem cycle_publishes s s' :
  cycle s = Some (tt, s') ->
  exists temps p,
    (length temps <= 600)%nat /\
    fst <$> predict_temperature temps s' = Some p /\
    sensor_data s' = temps /\
    get_data s' =
      {| st_cycle := S (cycle_count s);
         st_current_avg := mean_or_zero temps;
         st_latest_predicted := p;
         st_history :=
           cycle_data s ++
           [{| rec_cycle := S (cycle_count s);
               rec_avg_temp := mean_or_zero temps;
               rec_predicted_temp := p |}] |} /\
    (exists t1 t2,
       csv_file s' =
         csv_file s ++
         [{| row_timestamp := t1; row_cycle := S (cycle_count s);
             row_average := mean_or_zero temps; row_predicted := None;
             row_breach := Some (fgt (mean_or_zero temps) TEMP_THRESHOLD) |};
          {| row_timestamp := t2; row_cycle := S (cycle_count s);
             row_average := mean_or_zero temps; row_predicted := Some p;
             row_breach := None |}]).
Proof.
  intros Hrun.
  destruct (cycle_work_spec s)
    as (temps & p & s1 & E & L & P & S & N & D & _ & _ & R).
  destruct (runs_pad_to 600 (clock s) s1) as ([] & s2 & Ep & [_ Ps Pd Pn Pf _]).
  unfold cycle, bind in Hrun. rewrite E, Ep in Hrun.
  assert (Hs : s2 = s') by congruence. rewrite <- Hs. clear Hrun Hs s'.
  exists temps, p.
  split; [ exact L |].
  split; [ rewrite (predict_temperature_value temps s2 s); exact P |].
  split; [ congruence |].
  split.
  - unfold get_data. rewrite Pn, Ps, Pd, N, S, D, last_snoc. reflexivity.
  - rewrite Pf. exact R.
Qed.

Lemma cycle_publishes_witness :
  exists temps p,
    (length temps <= 600)%nat /\
    fst <$> predict_temperature temps demo_rest = Some p /\
    sensor_data demo_rest = temps /\
    get_data demo_rest =
      {| st_cycle := S (cycle_count demo_boot);
         st_current_avg := mean_or_zero temps;
         st_latest_predicted := p;
         st_history :=
           cycle_data demo_boot ++
           [{| rec_cycle := S (cycle_count demo_boot);
               rec_avg_temp := mean_or_zero temps;
               rec_predicted_temp := p |}] |} /\
    (exists t1 t2,
       csv_file demo_rest =
         csv_file demo_boot ++
         [{| row_timestamp := t1; row_cycle := S (cycle_count demo_boot);
             row_average := mean_or_zero temps; row_predicted := None;
             row_breach := Some (fgt (mean_or_zero temps) TEMP_THRESHOLD) |};
          {| row_timestamp := t2; row_cycle := S (cycle_count demo_boot);
             row_average := mean_or_zero temps; row_predicted := Some p;
             row_breach := None |}]).
Proof.
  apply (cycle_publishes demo_boot demo_rest).
  vm_compute. reflexivity.
Defined.
